(** * Race results scraper: extraction and normalisation core

    A shallow embedding of the pure core of [scraper.py]: the candidate
    array finder, the array scorer, the row normaliser, the deduplicator
    and the DOM table fallback, together with the properties the
    specification states about them.

    Conventions.
    - A Python [str] is a [string]: a sequence of characters with code
      points below 256.  [lower] and [strip] follow Python's behaviour on
      that range.
    - A Python [dict] read in insertion order (a decoded JSON object, the
      items of [FIELD_MAP]) is an association list; a [dict] used only
      through lookups and stores (a result row, [header_map]) is a [gmap];
      a Python [set] is a [gset].
    - Python integers are [Z]. *)

From Stdlib Require Import ZArith Ascii String List.
From stdpp Require Import base option list gmap strings fin_maps sorting.

Local Open Scope string_scope.
Local Open Scope Z_scope.
Local Open Scope list_scope.

(** ** Strings *)

Module PyStr.

(** [c.lower()] for a single character. *)
Definition lower_char (c : ascii) : ascii :=
  let n := N_of_ascii c in
  if ((65 <=? n) && (n <=? 90) ||
      (192 <=? n) && (n <=? 222) && negb (n =? 215))%N
  then ascii_of_N (n + 32) else c.

(** [s.lower()] *)
Fixpoint lower (s : string) : string :=
  match s with
  | EmptyString => EmptyString
  | String c s' => String (lower_char c) (lower s')
  end.

(** [c.isspace()] *)
Definition isspace (c : ascii) : bool :=
  let n := N_of_ascii c in
  ((9 <=? n) && (n <=? 13) || (28 <=? n) && (n <=? 32) ||
   (n =? 133) || (n =? 160))%N.

(** [s.lstrip()] *)
Fixpoint lstrip (s : string) : string :=
  match s with
  | EmptyString => EmptyString
  | String c s' => if isspace c then lstrip s' else s
  end.

(** [s.rstrip()] *)
Fixpoint rstrip (s : string) : string :=
  match s with
  | EmptyString => EmptyString
  | String c s' =>
      match rstrip s' with
      | EmptyString => if isspace c then EmptyString else String c EmptyString
      | r => String c r
      end
  end.

(** [s.strip()] *)
Definition strip (s : string) : string := rstrip (lstrip s).

(** Truth value of a string: [bool(s)]. *)
Definition truthy (s : string) : bool :=
  match s with EmptyString => false | _ => true end.

(** [sep.join(parts)] *)
Fixpoint join (sep : string) (parts : list string) : string :=
  match parts with
  | [] => EmptyString
  | [p] => p
  | p :: rest => p +:+ sep +:+ join sep rest
  end.

(** [needle in hay] *)
Fixpoint contains (hay needle : string) : bool :=
  String.prefix needle hay ||
  match hay with
  | EmptyString => false
  | String _ hay' => contains hay' needle
  end.

(** [s.replace(" ", "_")] *)
Fixpoint underscored (s : string) : string :=
  match s with
  | EmptyString => EmptyString
  | String c s' =>
      String (if Ascii.eqb c " "%char then "_"%char else c) (underscored s')
  end.

End PyStr.
Import PyStr.

(** ** JSON values *)

(** What [json.loads] returns.  A float is kept as its IEEE-754 binary64
    bit pattern; an object keeps its members in document order. *)
#[warnings="-register-all"]
Inductive json : Type :=
| JNull
| JBool (b : bool)
| JInt (n : Z)
| JFloat (bits : Z)
| JStr (s : string)
| JArr (items : list json)
| JObj (members : list (string * json)).

(** ** Array scorer *)

Definition strong : list string :=
  ["bibno"; "bib_no"; "bib"; "bib_number"; "finished_time"; "finish_time";
   "chip_time"; "gun_time"; "net_time"; "pace"; "rank"; "overall_rank";
   "bracket_rank"; "category_rank"; "gender_rank"].

Definition moderate : list string :=
  ["first_name"; "last_name"; "name"; "full_name"; "runner_name";
   "participant"; "age"; "gender"; "sex"; "category"; "race_name";
   "race_id"; "club"; "city"; "country"; "nationality"].

(** [set(k.lower() for k in sample.keys())] *)
Definition lowered_keys (sample : list (string * json)) : gset string :=
  list_to_set (map (fun kv => lower (fst kv)) sample).

Definition score_result_array (arr : list json) : Z :=
  match arr with
  | JObj sample :: _ =>
      let keys := lowered_keys sample in
      let score := 0 in
      let score :=
        fold_left (fun score s => if bool_decide (s ∈ keys) then score + 2 else score)
                  strong score in
      let score :=
        fold_left (fun score m => if bool_decide (m ∈ keys) then score + 1 else score)
                  moderate score in
      let score := if Z.of_nat (length arr) >? 20 then score + 2 else score in
      let score := if Z.of_nat (length arr) >? 100 then score + 2 else score in
      score
  | _ => 0
  end.

(** ** Candidate array finder *)

Fixpoint find_result_arrays (data : json) (depth max_depth : Z)
  : list (list json) :=
  if depth >? max_depth then []
  else
    let candidates :=
      match data with
      | JArr ((JObj _ :: _) as arr) =>
          if score_result_array arr >? 2 then [arr] else []
      | _ => []
      end in
    match data with
    | JObj members =>
        candidates ++
        (fix items (kvs : list (string * json)) : list (list json) :=
           match kvs with
           | [] => []
           | (_, value) :: kvs' =>
               match value with
               | JArr _ | JObj _ =>
                   find_result_arrays value (depth + 1) max_depth
               | _ => []
               end ++ items kvs'
           end) members
    | _ => candidates
    end.

(** The value found from [data] by descending through object members
    only: each step of [path] picks a member, by position, of the object
    reached so far. *)
Fixpoint at_path (data : json) (path : list nat) : option json :=
  match path with
  | [] => Some data
  | i :: path' =>
      match data with
      | JObj members =>
          match members !! i with
          | Some (_, value) => at_path value path'
          | None => None
          end
      | _ => None
      end
  end.

(** ** Row normaliser *)

Definition FIELD_MAP_items : list (string * string) :=
  [ ("bibno", "bib"); ("bib_no", "bib"); ("bib_number", "bib");
    ("bibnumber", "bib"); ("race_number", "bib"); ("start_number", "bib");
    ("first_name", "first_name"); ("firstname", "first_name");
    ("last_name", "last_name"); ("lastname", "last_name");
    ("full_name", "full_name"); ("fullname", "full_name");
    ("name", "full_name"); ("runner_name", "full_name");
    ("participant_name", "full_name");
    ("finished_time", "chip_time"); ("finish_time", "chip_time");
    ("chip_time", "chip_time"); ("net_time", "chip_time");
    ("chiptime", "chip_time");
    ("gun_time", "gun_time"); ("guntime", "gun_time");
    ("gross_time", "gun_time");
    ("chip_pace", "pace"); ("pace", "pace"); ("avg_pace", "pace");
    ("gun_pace", "gun_pace");
    ("overall_rank", "overall_rank"); ("overallrank", "overall_rank");
    ("bracket_rank", "category_rank"); ("category_rank", "category_rank");
    ("gender_rank", "gender_rank");
    ("gender", "gender"); ("sex", "gender");
    ("age", "age"); ("age_group", "age_group"); ("agegroup", "age_group");
    ("category", "category"); ("race_name", "race_category");
    ("club", "club"); ("team", "club"); ("team_name", "club");
    ("city", "city"); ("country", "country");
    ("nationality", "nationality") ].

(** The dictionary itself, for [FIELD_MAP.get]. *)
Definition FIELD_MAP : gmap string string := list_to_map FIELD_MAP_items.

(** A result row: [dict[str, str]]. *)
Abbreviation row := (gmap string string).

(** [k in row] *)
Definition has_key (k : string) (r : row) : bool := bool_decide (is_Some (r !! k)).

(** [row.get(k, "")] *)
Definition get_or_empty (k : string) (r : row) : string := default "" (r !! k).

Section Normalizer.

(** Python's builtin [str] on a decoded JSON value that is neither
    [None] nor a [dict]. *)
Variable py_str : json -> string.

(** One iteration of the loop over [item.items()]. *)
Definition normalize_field (r : row) (kv : string * json) : row :=
  let '(orig_key, value) := kv in
  match FIELD_MAP !! lower orig_key with
  | Some normalized_key =>
      if truthy normalized_key then
        match value with
        | JObj _ => r
        | JNull => <[normalized_key := ""]> r
        | _ => <[normalized_key := py_str value]> r
        end
      else r
  | None => r
  end.

(** The row as it stands when the loop is over. *)
Definition mapped_row (item : list (string * json)) : row :=
  fold_left normalize_field item ∅.

Definition normalize_result_row (item : list (string * json)) : option row :=
  let r := mapped_row item in
  let has_identity :=
    existsb (fun k => has_key k r) ["bib"; "full_name"; "first_name"] in
  if has_identity then
    if negb (has_key "full_name" r) && has_key "first_name" r then
      let parts := [get_or_empty "first_name" r; get_or_empty "last_name" r] in
      Some (<["full_name" := strip (join " " (filter (fun p => truthy p = true) parts))]> r)
    else Some r
  else None.

End Normalizer.

(** [str] on the values the worked examples contain: strings, which it
    returns unchanged. *)
Definition str_of_text (v : json) : string :=
  match v with JStr s => s | _ => "" end.

(** ** Deduplicator *)

(** [row.get("bib", "") or row.get("full_name", "")] *)
Definition dedup_key (r : row) : string :=
  let bib := get_or_empty "bib" r in
  if truthy bib then bib else get_or_empty "full_name" r.

(** One iteration of the loop, on the pair [(seen, unique)]. *)
Definition dedup_step (st : gset string * list row) (r : row)
  : gset string * list row :=
  let '(seen, unique) := st in
  let key := dedup_key r in
  if truthy key && negb (bool_decide (key ∈ seen))
  then ({[key]} ∪ seen, unique ++ [r])
  else st.

Definition deduplicate_results (results : list row) : list row :=
  snd (fold_left dedup_step results (∅, [])).

(** ** DOM table fallback *)

(** A table as the page exposes it: its [tr] rows, each a sequence of
    [th] or [td] cells with their inner text. *)
Inductive cell_tag : Set := Th | Td.

Record cell : Set := Cell { tag : cell_tag; inner_text : string }.

Definition is_td (c : cell) : bool :=
  match tag c with Td => true | Th => false end.

(** [enumerate(l)] *)
Definition enumerate {A : Type} (l : list A) : list (nat * A) :=
  combine (seq 0 (length l)) l.

Definition results_keywords : list string :=
  ["bib"; "name"; "time"; "finish"; "rank"; "pace"; "position"].

(** The [else] branch of the header loop. *)
Definition fuzzy_match (h : string) : option string :=
  if contains h "bib" then Some "bib"
  else if contains h "name" then Some "full_name"
  else if contains h "finish" || contains h "chip" || contains h "net"
  then Some "chip_time"
  else if contains h "gun" || contains h "gross" then Some "gun_time"
  else if contains h "rank" || contains h "pos" then
    if contains h "overall" then Some "overall_rank"
    else if contains h "gender" || contains h "category"
    then Some "category_rank"
    else Some "overall_rank"
  else if contains h "pace" then Some "pace"
  else if contains h "age" then Some "age_group"
  else if contains h "gender" || contains h "sex" then Some "gender"
  else if contains h "category" || contains h "race" then Some "category"
  else if contains h "club" || contains h "team" then Some "club"
  else None.

(** The field a header maps to, if any. *)
Definition header_field (h : string) : option string :=
  match find (fun kv => contains (underscored h) (fst kv)) FIELD_MAP_items with
  | Some (_, norm) => Some norm
  | None => fuzzy_match h
  end.

Definition build_header_map (headers : list string) : gmap nat string :=
  fold_left
    (fun header_map ih =>
       match header_field (snd ih) with
       | Some norm => <[fst ih := norm]> header_map
       | None => header_map
       end)
    (enumerate headers) ∅.

(** The body of the loop over [rows[1:]]: the row to append, if any. *)
Definition data_row (header_map : gmap nat string) (tr : list cell)
  : option row :=
  let cells := filter (fun c => is_td c = true) tr in
  if (length cells =? 0)%nat then None
  else
    let result_row :=
      fold_left
        (fun (result_row : row) ic =>
           match header_map !! fst ic with
           | Some field => <[field := strip (inner_text (snd ic))]> result_row
           | None => result_row
           end)
        (enumerate cells) ∅ in
    if bool_decide (result_row = ∅) then None else Some result_row.

(** One iteration of the loop over [rows[1:]]. *)
Definition append_data_row (header_map : gmap nat string)
           (results : list row) (tr : list cell) : list row :=
  match data_row header_map tr with
  | Some result_row => results ++ [result_row]
  | None => results
  end.

(** The header texts of a table: [inner_text().strip().lower()] of every
    cell of its first row. *)
Definition header_texts (header_row : list cell) : list string :=
  map (fun c => lower (strip (inner_text c))) header_row.

(** The body of the loop over [tables]. *)
Definition scrape_table (results : list row) (rows : list (list cell))
  : list row :=
  if (length rows <? 3)%nat then results
  else
    match rows with
    | [] => results
    | header_row :: body =>
        let headers := header_texts header_row in
        if bool_decide (headers = []) then results
        else
          let header_text := join " " headers in
          if negb (existsb (contains header_text) results_keywords) then results
          else
            let header_map := build_header_map headers in
            fold_left (append_data_row header_map) body results
    end.

(** [tables] is what [query_selector_all("table")] returned, or empty when
    no table showed up. *)
Definition scrape_dom_table (tables : list (list (list cell))) : list row :=
  fold_left scrape_table tables [].

(** ** JSON path and fallback *)

(** A captured response, as [capture_response] records it. *)
Record api_response : Type := ApiResponse {
  url : string;
  status : Z;
  data : json;
  size : Z
}.

(** [sorted(api_responses, key=lambda x: x["size"], reverse=True)]:
    largest first, equal sizes in their original order. *)
Fixpoint insert_by_size (r : api_response) (sorted : list api_response)
  : list api_response :=
  match sorted with
  | [] => [r]
  | x :: sorted' =>
      if size r <? size x then x :: insert_by_size r sorted'
      else r :: sorted
  end.

Definition sorted_by_size_desc (l : list api_response) : list api_response :=
  foldr insert_by_size [] l.

Section Pipeline.

Variable py_str : json -> string.

(** The loop nest shared by the three extractors: every item of every
    candidate array of every response that passes [accept] is normalised
    and appended when the result is a non-empty row. *)
Definition collect_rows (accept : json -> bool)
           (responses : list api_response) : list row :=
  fold_left
    (fun results resp =>
       fold_left
         (fun results arr =>
            fold_left
              (fun results item =>
                 if accept item then
                   match item with
                   | JObj members =>
                       match normalize_result_row py_str members with
                       | Some r =>
                           if bool_decide (r = ∅) then results
                           else results ++ [r]
                       | None => results
                       end
                   | _ => results
                   end
                 else results)
              arr results)
         (find_result_arrays (data resp) 0 5) results)
    responses [].

(** [isinstance(item, dict)] *)
Definition is_dict (item : json) : bool :=
  match item with JObj _ => true | _ => false end.

(** [isinstance(item, dict) and any(k in item for k in [...])] *)
Definition is_sts_item (item : json) : bool :=
  match item with
  | JObj members =>
      existsb (fun k => bool_decide (k ∈ map fst members))
              ["bibno"; "bib_no"; "first_name"; "finished_time"; "gun_time"]
  | _ => false
  end.

Definition extract_sts_data (api_responses : list api_response) : list row :=
  deduplicate_results (collect_rows is_sts_item api_responses).

Definition extract_mysamay_data (api_responses : list api_response)
  : list row :=
  deduplicate_results (collect_rows is_dict api_responses).

Definition extract_generic_data (api_responses : list api_response)
  : list row :=
  deduplicate_results
    (collect_rows is_dict (sorted_by_size_desc api_responses)).

(** [intercept_api_data] once the page has been driven: [api_responses]
    are the JSON responses captured on the way and [tables] the tables of
    the rendered page.  The rows returned are those of the platform's
    extractor, or of the DOM fallback when that yields none. *)
Definition intercept_api_data (platform_key : string)
           (api_responses : list api_response)
           (tables : list (list (list cell))) : list row :=
  let captured_data :=
    if String.eqb platform_key "sts" then extract_sts_data api_responses
    else if String.eqb platform_key "mysamay"
         then extract_mysamay_data api_responses
         else extract_generic_data api_responses in
  match captured_data with
  | [] => scrape_dom_table tables
  | _ => captured_data
  end.

End Pipeline.

(** ** Column order *)

Definition COLUMN_ORDER : list string :=
  ["bib"; "full_name"; "first_name"; "last_name"; "gender"; "age_group";
   "category"; "race_category"; "club"; "city"; "country"; "nationality";
   "chip_time"; "gun_time"; "pace"; "gun_pace";
   "overall_rank"; "category_rank"; "gender_rank"].

(** ** CSV output *)

(** The order of Python's [<=] on strings: lexicographic, by code point. *)
Definition str_le (a b : string) : Prop := String.leb a b = true.

#[local] Instance str_le_dec (a b : string) : Decision (str_le a b).
Proof. unfold str_le. apply _. Defined.

(** The union of the keys of all rows. *)
Definition all_fields (results : list row) : gset string :=
  fold_left (fun all_fields r => all_fields ∪ dom r) results ∅.

(** The columns [write_csv] computes: the fields of [COLUMN_ORDER] that
    occur, in that order, then the other fields, sorted. *)
Definition csv_columns (results : list row) : list string :=
  let all_fields := all_fields results in
  let ordered := filter (.∈ all_fields) COLUMN_ORDER in
  let extras :=
    merge_sort str_le (elements (all_fields ∖ list_to_set ordered)) in
  ordered ++ extras.


(** ** Platform registry *)

Record platform : Type := Platform {
  domains : list string;
  name : string;
  search_suffix : string
}.

Definition PLATFORMS : list (string * platform) :=
  [ ("mysamay",
     Platform ["mysamay.in"] "MySamay" "site:mysamay.in results");
    ("sts",
     Platform ["sportstimingsolutions.in"] "Sports Timing Solutions"
              "site:sportstimingsolutions.in results");
    ("timingindia",
     Platform ["timingindia.com"] "Timing India" "site:timingindia.com results");
    ("raceresult",
     Platform ["my.raceresult.com"; "raceresult.com"] "Race Result"
              "site:raceresult.com");
    ("runners_quest",
     Platform ["runners.quest"] "Runners Quest" "site:runners.quest results") ].

(** [s.replace("www.", "")]: every occurrence found scanning from the
    left is dropped; [skip] counts the characters of an occurrence still
    to drop. *)
Fixpoint remove_www_from (skip : nat) (s : string) : string :=
  match s with
  | EmptyString => EmptyString
  | String c s' =>
      match skip with
      | S skip' => remove_www_from skip' s'
      | O =>
          if String.prefix "www." s then remove_www_from 3 s'
          else String c (remove_www_from 0 s')
      end
  end.

Definition remove_www (s : string) : string := remove_www_from 0 s.

(** [detect_platform], from [parsed.netloc] on: [netloc] is the network
    location [urlparse] found in the URL. *)
Definition detect_platform (netloc : string) : option string :=
  let domain := remove_www (lower netloc) in
  fst <$> find (fun kp => existsb (contains domain) (domains (snd kp)))
               PLATFORMS.

(** ** Output file name *)

(** The characters the pattern [\w] matches, among code points below
    256: letters, digits and other numeric characters, and the
    underscore. *)
Definition is_word_char (c : ascii) : bool :=
  let n := N_of_ascii c in
  ((48 <=? n) && (n <=? 57) || (65 <=? n) && (n <=? 90) || (n =? 95)
   || (97 <=? n) && (n <=? 122)
   || (n =? 170) || (n =? 178) || (n =? 179) || (n =? 181)
   || (n =? 185) || (n =? 186) || (188 <=? n) && (n <=? 190)
   || (192 <=? n) && (n <=? 214) || (216 <=? n) && (n <=? 246)
   || (248 <=? n) && (n <=? 255))%N.

(** [re.sub(r'[^\w\-]', '_', s)] *)
Fixpoint sanitized (s : string) : string :=
  match s with
  | EmptyString => EmptyString
  | String c s' =>
      String (if is_word_char c || Ascii.eqb c "-"%char then c else "_"%char)
             (sanitized s')
  end.

(** [safe_name] in [run_agent]: the sanitised [race_name or "race"]. *)
Definition safe_name (race_name : option string) : string :=
  sanitized (match race_name with
             | Some s => if truthy s then s else "race"
             | None => "race"
             end).

(** ** Auxiliary definitions for the proofs *)

(** What the finder contributes for one member value of an object. *)
Definition from_member (depth max_depth : Z) (kv : string * json)
  : list (list json) :=
  match snd kv with
  | JArr _ | JObj _ => find_result_arrays (snd kv) (depth + 1) max_depth
  | _ => []
  end.

(** The rows the loop appends when started with [seen]. *)
Fixpoint dedup_from (seen : gset string) (results : list row) : list row :=
  match results with
  | [] => []
  | r :: results' =>
      if truthy (dedup_key r) && negb (bool_decide (dedup_key r ∈ seen))
      then r :: dedup_from ({[dedup_key r]} ∪ seen) results'
      else dedup_from seen results'
  end.

(** A row carries an identity when one of [bib], [full_name],
    [first_name] is among its keys. *)
Definition has_identity (r : row) : Prop :=
  is_Some (r !! "bib") ∨ is_Some (r !! "full_name") ∨ is_Some (r !! "first_name").

#[local] Instance has_identity_dec (r : row) : Decision (has_identity r).
Proof. unfold has_identity. apply _. Defined.

(** Rows as the JSON extractors hand them on: every row carries an
    identity, and the dedup keys are non-empty and pairwise distinct. *)
Definition clean_rows (rows : list row) : Prop :=
  Forall has_identity rows
  ∧ Forall (fun r => dedup_key r ≠ "") rows
  ∧ NoDup (map dedup_key rows).

(** ** Worked inputs *)

(** A twenty-element array and eighty-one further elements of the same
    shape. *)
Definition runner_sample : json := JObj [("bib", JStr "1"); ("name", JStr "A")].
Definition twenty_runners : list json := replicate 20 runner_sample.
Definition eighty_one_more : list json := replicate 81 runner_sample.

(** A row whose [bib] and [full_name] are both the empty string. *)
Definition nameless_row : row := <["bib" := ""]> (<["full_name" := ""]> ∅).

(** The tables of scenario C. *)
Definition finish_header : list cell :=
  [Cell Th "Bib"; Cell Th "Name"; Cell Th "Finish Time"].
Definition ravi_cells : list cell :=
  [Cell Td "55"; Cell Td "Ravi Shah"; Cell Td "01:02:33"].
Definition ravi_row : row :=
  <["bib" := "55"]> (<["full_name" := "Ravi Shah"]>
    (<["chip_time" := "01:02:33"]> ∅)).
Definition sponsor_header : list cell := [Cell Th "Sponsor"; Cell Th "Logo"].

(** A results table that lists rank, time and pace only. *)
Definition pace_table : list (list cell) :=
  [ [Cell Th "Rank"; Cell Th "Time"; Cell Th "Pace"];
    [Cell Td "1"; Cell Td "00:40:00"; Cell Td "4:00"];
    [Cell Td "2"; Cell Td "00:41:00"; Cell Td "4:06"] ].

(** Two tables of one page that list the same runner. *)
Definition overall_table : list (list cell) :=
  [ [Cell Th "Bib"; Cell Th "Name"; Cell Th "Finish Time"];
    [Cell Td "55"; Cell Td "Ravi Shah"; Cell Td "01:02:33"];
    [Cell Td "56"; Cell Td "Asha Rao"; Cell Td "01:03:10"] ].
Definition category_table : list (list cell) :=
  [ [Cell Th "Bib"; Cell Th "Name"; Cell Th "Category"];
    [Cell Td "55"; Cell Td "Ravi Shah"; Cell Td "M40"];
    [Cell Td "61"; Cell Td "Dev Kumar"; Cell Td "M40"] ].

(** * Properties *)

(** Case analysis on a [>?] test of the goal or of a hypothesis. *)
Ltac gtb_cases :=
  match goal with
  | |- context [?a >? ?b] => destruct (Z.gtb_spec a b)
  | H : context [?a >? ?b] |- _ => destruct (Z.gtb_spec a b)
  end.

(** ** Array scorer *)

Example score_scenario_a :
  score_result_array
    [JObj [("bibno", JStr "101"); ("first_name", JStr "Asha");
           ("last_name", JStr "Rao"); ("finished_time", JStr "00:45:12");
           ("overall_rank", JStr "3")];
     JObj [("bibno", JStr "102"); ("full_name", JStr "Dev Kumar");
           ("chip_time", JStr "00:46:01"); ("overall_rank", JStr "4")]] = 8.
Proof. compute_done. Qed.

Section Scorer.

Implicit Types (sample : list (string * json)) (arr rest : list json).

Lemma elem_of_lowered_keys sample (x : string) :
  x ∈ lowered_keys sample ↔ ∃ k v, (k, v) ∈ sample ∧ x = lower k.
Proof.
  unfold lowered_keys. rewrite elem_of_list_to_set, list_elem_of_fmap.
  split.
  - intros [[k v] [-> Hin]]. eauto.
  - intros (k & v & Hin & ->). by exists (k, v).
Qed.

(** A counting loop adds its weight once per element that passes. *)
Lemma fold_left_count (P : string → Prop) `{!∀ x, Decision (P x)}
      (w : Z) (l : list string) (a : Z) :
  fold_left (fun score x => if bool_decide (P x) then score + w else score) l a
  = a + w * Z.of_nat (length (filter P l)).
Proof.
  revert a. induction l as [|x l IH]; intros a; simpl.
  - lia.
  - rewrite IH. rewrite filter_cons. case_bool_decide.
    + rewrite decide_True by done. simpl length. lia.
    + rewrite decide_False by done. lia.
Qed.

Lemma strong_NoDup : NoDup strong.
Proof. compute_done. Qed.

Lemma moderate_NoDup : NoDup moderate.
Proof. compute_done. Qed.

(** The score of an array headed by an object, in closed form. *)
Lemma score_result_array_closed sample rest :
  score_result_array (JObj sample :: rest)
  = 2 * Z.of_nat (length (filter (.∈ lowered_keys sample) strong))
    + 1 * Z.of_nat (length (filter (.∈ lowered_keys sample) moderate))
    + (if Z.of_nat (S (length rest)) >? 20 then 2 else 0)
    + (if Z.of_nat (S (length rest)) >? 100 then 2 else 0).
Proof.
  unfold score_result_array.
  rewrite (fold_left_count (.∈ lowered_keys sample) 2).
  rewrite (fold_left_count (.∈ lowered_keys sample) 1).
  cbn [length]. repeat gtb_cases; lia.
Qed.

End Scorer.

(** C5: for an array whose first element is an object, the score is 2 for
    each strong key plus 1 for each moderate key found among the
    lower-cased keys of that first element, plus the two length bonuses;
    the other elements count only through the length. *)
Theorem score_result_array_first_element
        (sample : list (string * json)) (rest : list json) :
  score_result_array (JObj sample :: rest)
  = 2 * Z.of_nat (length (filter (.∈ lowered_keys sample) strong))
    + 1 * Z.of_nat (length (filter (.∈ lowered_keys sample) moderate))
    + (if Z.of_nat (length (JObj sample :: rest)) >? 20 then 2 else 0)
    + (if Z.of_nat (length (JObj sample :: rest)) >? 100 then 2 else 0)
  ∧ ∀ rest' : list json,
      length rest' = length rest →
      score_result_array (JObj sample :: rest')
      = score_result_array (JObj sample :: rest).
Proof.
  split.
  - apply score_result_array_closed.
  - intros rest' Hlen. rewrite !score_result_array_closed, Hlen. reflexivity.
Qed.

Lemma score_result_array_first_element_witness :
  length [JNull] = length [runner_sample]
  ∧ score_result_array (JObj [("bib", JStr "1")] :: [JNull])
    = score_result_array (JObj [("bib", JStr "1")] :: [runner_sample]).
Proof.
  split; [reflexivity|].
  apply (proj2 (score_result_array_first_element
                  [("bib", JStr "1")] [runner_sample]) [JNull]).
  reflexivity.
Defined.

(** C6 as stated fails: 81 further elements bring the length to 101, and
    both length bonuses apply. *)
Lemma score_extend_by_81 :
  length twenty_runners = 20%nat ∧
  (21 ≤ length eighty_one_more)%nat ∧
  score_result_array (twenty_runners ++ eighty_one_more)
  = score_result_array twenty_runners + 4 ∧
  score_result_array (twenty_runners ++ eighty_one_more)
  ≠ score_result_array twenty_runners + 2.
Proof. compute_done. Qed.

(** C6, amended: a twenty-element array headed by an object gains exactly
    2 when extended by 21 to 80 elements, and exactly 4 when extended by
    81 or more. *)
Theorem score_extend_twenty (sample : list (string * json))
        (rest more : list json) :
  length (JObj sample :: rest) = 20%nat →
  (21 ≤ length more)%nat →
  ((length more ≤ 80)%nat →
   score_result_array ((JObj sample :: rest) ++ more)
   = score_result_array (JObj sample :: rest) + 2)
  ∧ ((81 ≤ length more)%nat →
     score_result_array ((JObj sample :: rest) ++ more)
     = score_result_array (JObj sample :: rest) + 4).
Proof.
  intros Hlen Hmore. cbn [length] in Hlen.
  change ((JObj sample :: rest) ++ more) with (JObj sample :: (rest ++ more)).
  rewrite !score_result_array_closed, length_app.
  split; intros Hbound; repeat gtb_cases; lia.
Qed.

Lemma score_extend_twenty_witness :
  length (JObj [("bib", JStr "1")] :: replicate 19 runner_sample) = 20%nat ∧
  (21 ≤ length (replicate 21 runner_sample))%nat ∧
  score_result_array
    ((JObj [("bib", JStr "1")] :: replicate 19 runner_sample)
       ++ replicate 21 runner_sample)
  = score_result_array (JObj [("bib", JStr "1")] :: replicate 19 runner_sample) + 2.
Proof.
  split; [reflexivity|]. split; [vm_compute; lia|].
  apply (score_extend_twenty [("bib", JStr "1")]
           (replicate 19 runner_sample) (replicate 21 runner_sample)).
  - reflexivity.
  - vm_compute. lia.
  - vm_compute. lia.
Defined.

(** ** Candidate array finder *)

(** Induction on JSON values, with the hypothesis available for every
    element of an array and every member value of an object. *)
Lemma json_nested_ind (P : json → Prop) :
  P JNull →
  (∀ b, P (JBool b)) →
  (∀ n, P (JInt n)) →
  (∀ bits, P (JFloat bits)) →
  (∀ s, P (JStr s)) →
  (∀ items, Forall P items → P (JArr items)) →
  (∀ members, Forall (fun kv => P (snd kv)) members → P (JObj members)) →
  ∀ j, P j.
Proof.
  intros Hnull Hbool Hint Hfloat Hstr Harr Hobj.
  fix IH 1. intros [ | b | n | bits | s | items | members ].
  - exact Hnull.
  - apply Hbool.
  - apply Hint.
  - apply Hfloat.
  - apply Hstr.
  - apply Harr. induction items as [|x items IHitems]; constructor.
    + apply IH.
    + exact IHitems.
  - apply Hobj. induction members as [|[k v] members IHmembers]; constructor.
    + apply IH.
    + exact IHmembers.
Qed.

Lemma find_result_arrays_obj members depth max_depth :
  find_result_arrays (JObj members) depth max_depth
  = if depth >? max_depth then []
    else flat_map (from_member depth max_depth) members.
Proof.
  cbn [find_result_arrays]. destruct (depth >? max_depth); [reflexivity|].
  cbn [app]. induction members as [|[k v] members IH]; [reflexivity|].
  cbn [flat_map]. rewrite <- IH. reflexivity.
Qed.

Lemma find_result_arrays_arr items depth max_depth :
  find_result_arrays (JArr items) depth max_depth
  = if depth >? max_depth then []
    else match items with
         | JObj _ :: _ => if score_result_array items >? 2 then [items] else []
         | _ => []
         end.
Proof.
  cbn [find_result_arrays]. destruct (depth >? max_depth); [reflexivity|].
  destruct items as [|first rest]; [reflexivity|].
  destruct first; reflexivity.
Qed.

Lemma find_result_arrays_scalar data depth max_depth :
  match data with JArr _ | JObj _ => False | _ => True end →
  find_result_arrays data depth max_depth = [].
Proof.
  destruct data; try contradiction; intros _; cbn [find_result_arrays];
    destruct (depth >? max_depth); reflexivity.
Qed.

Lemma find_result_arrays_path data :
  ∀ depth max_depth arr,
    arr ∈ find_result_arrays data depth max_depth →
    ∃ path, at_path data path = Some (JArr arr)
            ∧ depth + Z.of_nat (length path) ≤ max_depth.
Proof.
  induction data as [ | b | n | bits | s | items _ | members IH ]
    using json_nested_ind; intros depth max_depth arr Hin.
  1-5: rewrite find_result_arrays_scalar in Hin by exact I;
       by apply elem_of_nil in Hin.
  - rewrite find_result_arrays_arr in Hin.
    gtb_cases; [by apply elem_of_nil in Hin|].
    destruct items as [|first rest]; [by apply elem_of_nil in Hin|].
    destruct first; try (by apply elem_of_nil in Hin).
    destruct (score_result_array _ >? 2); [|by apply elem_of_nil in Hin].
    apply list_elem_of_singleton in Hin as ->.
    exists []. split; [reflexivity|]. cbn [length]. lia.
  - rewrite find_result_arrays_obj in Hin.
    gtb_cases; [by apply elem_of_nil in Hin|].
    apply list_elem_of_In, in_flat_map in Hin as ([k v] & Hkv & Hin).
    apply list_elem_of_In in Hkv, Hin.
    rewrite Forall_forall in IH. specialize (IH _ Hkv). cbn [snd] in IH.
    assert (arr ∈ find_result_arrays v (depth + 1) max_depth) as Hv.
    { unfold from_member in Hin. cbn [snd] in Hin.
      destruct v; try (by apply elem_of_nil in Hin); exact Hin. }
    destruct (IH _ _ _ Hv) as (path & Hpath & Hdepth).
    apply list_elem_of_lookup in Hkv as [i Hi].
    exists (i :: path). split.
    + cbn [at_path]. rewrite Hi. exact Hpath.
    + cbn [length]. lia.
Qed.

(** C9: past the maximum depth the finder returns no candidates; every
    candidate it returns sits at a position reached from the root through
    object members only, at a depth within the bound; and applied to an
    array it returns that array or nothing, whatever the elements hold. *)
Theorem find_result_arrays_through_objects
        (data : json) (depth max_depth : Z) :
  (depth > max_depth → find_result_arrays data depth max_depth = [])
  ∧ (∀ arr, arr ∈ find_result_arrays data depth max_depth →
       ∃ path, at_path data path = Some (JArr arr)
               ∧ depth + Z.of_nat (length path) ≤ max_depth)
  ∧ (∀ items,
       find_result_arrays (JArr items) depth max_depth
       = if depth >? max_depth then []
         else match items with
              | JObj _ :: _ =>
                  if score_result_array items >? 2 then [items] else []
              | _ => []
              end).
Proof.
  split; [|split].
  - intros Hdeep.
    assert ((depth >? max_depth) = true) as Hgt by (apply Z.gtb_lt; lia).
    destruct data; cbn [find_result_arrays]; rewrite Hgt; reflexivity.
  - intros arr Hin. exact (find_result_arrays_path data depth max_depth arr Hin).
  - intros items. apply find_result_arrays_arr.
Qed.

Lemma find_result_arrays_through_objects_witness :
  6 > 5 ∧ find_result_arrays (JObj [("data", JArr [runner_sample])]) 6 5 = [].
Proof.
  split; [lia|].
  apply (find_result_arrays_through_objects
           (JObj [("data", JArr [runner_sample])]) 6 5).
  lia.
Defined.

Example find_result_arrays_nested :
  find_result_arrays
    (JObj [("meta", JStr "x");
           ("data", JObj [("results", JArr [runner_sample; JNull])]);
           ("pages", JArr [JArr [runner_sample]])]) 0 5
  = [[runner_sample; JNull]].
Proof. compute_done. Qed.

(** ** Deduplicator *)

Section Dedup.

Implicit Types (r : row) (results unique : list row) (seen : gset string).

Lemma fold_dedup_step results : ∀ seen unique,
  snd (fold_left dedup_step results (seen, unique))
  = unique ++ dedup_from seen results.
Proof.
  induction results as [|r results IH]; intros seen unique; cbn [fold_left dedup_from].
  - by rewrite app_nil_r.
  - unfold dedup_step at 2.
    destruct (truthy (dedup_key r) && negb (bool_decide (dedup_key r ∈ seen))).
    + rewrite IH, <- app_assoc. reflexivity.
    + apply IH.
Qed.

Lemma deduplicate_results_from results :
  deduplicate_results results = dedup_from ∅ results.
Proof. unfold deduplicate_results. by rewrite fold_dedup_step. Qed.

Lemma truthy_nonempty (s : string) : truthy s = true ↔ s ≠ "".
Proof. destruct s; cbn; split; congruence. Qed.

(** A kept row has a non-empty key that had not been seen. *)
Lemma dedup_from_key results : ∀ seen r,
  r ∈ dedup_from seen results → dedup_key r ≠ "" ∧ dedup_key r ∉ seen.
Proof.
  induction results as [|r0 results IH]; intros seen r Hin; cbn [dedup_from] in Hin.
  - by apply elem_of_nil in Hin.
  - destruct (truthy (dedup_key r0)) eqn:Htruthy; cbn [andb] in Hin;
      [case_bool_decide as Hseen; cbn [negb] in Hin|].
    + by apply IH in Hin.
    + apply elem_of_cons in Hin as [->|Hin].
      * split; [by apply truthy_nonempty|done].
      * apply IH in Hin as [Hne Hfresh]. split; [exact Hne|].
        intros Hseen'. apply Hfresh, elem_of_union. by right.
    + by apply IH in Hin.
Qed.

Lemma dedup_from_NoDup results : ∀ seen,
  NoDup (map dedup_key (dedup_from seen results)).
Proof.
  induction results as [|r0 results IH]; intros seen; cbn [dedup_from].
  - constructor.
  - destruct (truthy (dedup_key r0) && negb (bool_decide (dedup_key r0 ∈ seen)));
      [|apply IH].
    cbn [map]. constructor; [|apply IH].
    rewrite list_elem_of_fmap. intros (r & Hkey & Hin).
    apply dedup_from_key in Hin as [_ Hfresh].
    apply Hfresh, elem_of_union. left. by apply elem_of_singleton.
Qed.

Lemma dedup_from_sublist results : ∀ seen,
  dedup_from seen results `sublist_of` results.
Proof.
  induction results as [|r0 results IH]; intros seen; cbn [dedup_from].
  - constructor.
  - destruct (truthy (dedup_key r0) && negb (bool_decide (dedup_key r0 ∈ seen))).
    + apply sublist_skip, IH.
    + apply sublist_cons, IH.
Qed.

Lemma dedup_from_idemp results : ∀ seen,
  dedup_from seen (dedup_from seen results) = dedup_from seen results.
Proof.
  induction results as [|r0 results IH]; intros seen; cbn [dedup_from];
    [reflexivity|].
  destruct (truthy (dedup_key r0) && negb (bool_decide (dedup_key r0 ∈ seen)))
    eqn:Hkeep; [|apply IH].
  cbn [dedup_from]. rewrite Hkeep, IH. reflexivity.
Qed.

(** A kept row is the first input row with its key. *)
Lemma dedup_from_first results : ∀ seen r,
  r ∈ dedup_from seen results →
  ∃ before after,
    results = before ++ r :: after
    ∧ Forall (fun r' => dedup_key r' ≠ dedup_key r) before.
Proof.
  induction results as [|r0 results IH]; intros seen r Hin; cbn [dedup_from] in Hin.
  - by apply elem_of_nil in Hin.
  - destruct (truthy (dedup_key r0) && negb (bool_decide (dedup_key r0 ∈ seen)))
      eqn:Hkeep.
    + apply elem_of_cons in Hin as [->|Hin].
      * exists [], results. split; [reflexivity|constructor].
      * pose proof (dedup_from_key _ _ _ Hin) as [_ Hfresh].
        destruct (IH _ _ Hin) as (before & after & -> & Hbefore).
        exists (r0 :: before), after. split; [reflexivity|].
        constructor; [set_solver|exact Hbefore].
    + pose proof (dedup_from_key _ _ _ Hin) as [Hne Hfresh].
      destruct (IH _ _ Hin) as (before & after & -> & Hbefore).
      exists (r0 :: before), after. split; [reflexivity|].
      constructor; [|exact Hbefore].
      intros Heq. apply andb_false_iff in Hkeep as [Hempty|Hseen].
      * apply Hne. rewrite <- Heq. by destruct (dedup_key r0).
      * apply negb_false_iff, bool_decide_eq_true in Hseen.
        apply Hfresh. by rewrite <- Heq.
Qed.

End Dedup.

(** C10: deduplicating twice is deduplicating once, and the rows kept are
    a subsequence of the input. *)
Theorem deduplicate_results_idempotent (results : list row) :
  deduplicate_results (deduplicate_results results) = deduplicate_results results
  ∧ deduplicate_results results `sublist_of` results.
Proof.
  rewrite !deduplicate_results_from. split.
  - apply dedup_from_idemp.
  - apply dedup_from_sublist.
Qed.

(** C4 as stated fails: such a row is dropped, not passed through. *)
Lemma deduplicate_results_drops_nameless :
  nameless_row !! "bib" = Some "" ∧
  nameless_row !! "full_name" = Some "" ∧
  nameless_row ∉ deduplicate_results [nameless_row].
Proof.
  split; [compute_done|]. split; [compute_done|].
  replace (deduplicate_results [nameless_row]) with (@nil row) by compute_done.
  apply not_elem_of_nil.
Qed.

(** C4, amended: a row whose [bib] and [full_name] are both empty strings
    never appears in the output of the deduplicator. *)
Theorem deduplicate_results_empty_key (results : list row) (r : row) :
  r !! "bib" = Some "" →
  r !! "full_name" = Some "" →
  r ∉ deduplicate_results results.
Proof.
  intros Hbib Hname Hin. rewrite deduplicate_results_from in Hin.
  apply dedup_from_key in Hin as [Hne _]. apply Hne.
  unfold dedup_key, get_or_empty. rewrite Hbib, Hname. reflexivity.
Qed.

Lemma deduplicate_results_empty_key_witness :
  nameless_row !! "bib" = Some "" ∧
  nameless_row !! "full_name" = Some "" ∧
  nameless_row ∉ deduplicate_results [<["bib" := "7"]> ∅; nameless_row].
Proof.
  split; [compute_done|]. split; [compute_done|].
  apply (deduplicate_results_empty_key
           [<["bib" := "7"]> ∅; nameless_row] nameless_row);
    compute_done.
Defined.

(** The deduplicator on its own keeps what the specification asks of a
    result set: keys of kept rows are non-empty and pairwise distinct, and
    a kept row is the first input row carrying its key. *)
Lemma deduplicate_results_keys (results : list row) :
  NoDup (map dedup_key (deduplicate_results results))
  ∧ ∀ r, r ∈ deduplicate_results results →
      dedup_key r ≠ ""
      ∧ ∃ before after,
          results = before ++ r :: after
          ∧ Forall (fun r' => dedup_key r' ≠ dedup_key r) before.
Proof.
  rewrite deduplicate_results_from. split.
  - apply dedup_from_NoDup.
  - intros r Hin. split.
    + by apply dedup_from_key in Hin as [Hne _].
    + by apply dedup_from_first in Hin.
Qed.

(** ** Row normaliser *)

Example normalize_scenario_a :
  normalize_result_row str_of_text
    [("bibno", JStr "101"); ("first_name", JStr "Asha");
     ("last_name", JStr "Rao"); ("finished_time", JStr "00:45:12");
     ("overall_rank", JStr "3")]
  = Some (<["bib" := "101"]> (<["first_name" := "Asha"]>
         (<["last_name" := "Rao"]> (<["full_name" := "Asha Rao"]>
         (<["chip_time" := "00:45:12"]> (<["overall_rank" := "3"]> ∅)))))).
Proof. compute_done. Qed.

Example normalize_scenario_d :
  normalize_result_row str_of_text
    [("club", JStr "Runners Co"); ("city", JStr "Pune")] = None.
Proof. compute_done. Qed.

Section NormalizerFacts.

Variable py_str : json → string.

Implicit Types (item : list (string * json)) (r : row) (k : string).

Lemma FIELD_MAP_target (key target : string) :
  FIELD_MAP !! key = Some target → target ∈ map snd FIELD_MAP_items.
Proof.
  intros Hget. apply elem_of_list_to_map_2 in Hget.
  apply list_elem_of_fmap. by exists (key, target).
Qed.

(** Every key the loop stores is a target of [FIELD_MAP]. *)
Lemma mapped_row_keys item k :
  is_Some (mapped_row py_str item !! k) → k ∈ map snd FIELD_MAP_items.
Proof.
  unfold mapped_row.
  assert (∀ k', is_Some ((∅ : row) !! k') → k' ∈ map snd FIELD_MAP_items) as Hinv.
  { intros k' [v Hv]. by rewrite lookup_empty in Hv. }
  revert Hinv. generalize (∅ : row). revert k.
  induction item as [|[orig_key value] item IH]; intros k r Hinv; cbn [fold_left].
  - apply Hinv.
  - apply IH. clear IH k. intros k.
    unfold normalize_field.
    destruct (FIELD_MAP !! lower orig_key) as [target|] eqn:Hget; [|apply Hinv].
    destruct (truthy target); [|apply Hinv].
    pose proof (FIELD_MAP_target _ _ Hget) as Htarget.
    destruct value; try apply Hinv;
      (rewrite lookup_insert; case_decide as Hk; [by subst|apply Hinv]).
Qed.

(** The three outcomes of [normalize_result_row], by the identity keys
    of the mapped row. *)
Lemma normalize_result_row_cases item :
  let r := mapped_row py_str item in
  normalize_result_row py_str item =
    match r !! "bib", r !! "full_name", r !! "first_name" with
    | None, None, None => None
    | _, None, Some first =>
        Some (<["full_name" :=
                  strip (join " " (filter (fun p => truthy p = true)
                                          [first; get_or_empty "last_name" r]))]> r)
    | _, _, _ => Some r
    end.
Proof.
  intros r. unfold normalize_result_row. fold r. cbn [existsb].
  unfold has_key, get_or_empty at 1.
  destruct (r !! "bib"), (r !! "full_name"), (r !! "first_name"); reflexivity.
Qed.

End NormalizerFacts.

(** C2: the normaliser returns no row exactly when none of [bib],
    [full_name], [first_name] is set by the key mapping; and when that
    mapping sets [first_name] but not [full_name], the row returned carries
    as [full_name] the non-empty ones among [first_name] and [last_name],
    joined by one space and stripped. *)
Theorem normalize_result_row_identity
        (py_str : json → string) (item : list (string * json)) :
  (normalize_result_row py_str item = None
   ↔ mapped_row py_str item !! "bib" = None
     ∧ mapped_row py_str item !! "full_name" = None
     ∧ mapped_row py_str item !! "first_name" = None)
  ∧ (∀ first : string,
       mapped_row py_str item !! "full_name" = None →
       mapped_row py_str item !! "first_name" = Some first →
       ∃ r : row,
         normalize_result_row py_str item = Some r
         ∧ r !! "full_name"
           = Some (strip (join " "
                     (filter (fun p => p ≠ "")
                        [first;
                         default "" (mapped_row py_str item !! "last_name")])))).
Proof.
  rewrite normalize_result_row_cases. cbv zeta. split.
  - destruct (mapped_row py_str item !! "bib"),
             (mapped_row py_str item !! "full_name"),
             (mapped_row py_str item !! "first_name");
      (split; [intros Hnone | intros (Hbib & Hfull & Hfirst)];
       repeat split; congruence).
  - intros first Hfull Hfirst. rewrite Hfull, Hfirst.
    eexists. split.
    + destruct (mapped_row py_str item !! "bib"); reflexivity.
    + rewrite lookup_insert_eq. do 3 f_equal.
      apply list_filter_iff. intros p. apply truthy_nonempty.
Qed.

Lemma normalize_result_row_identity_witness :
  mapped_row str_of_text
    [("first_name", JStr "Asha"); ("last_name", JStr "Rao ")] !! "full_name"
  = None
  ∧ mapped_row str_of_text
      [("first_name", JStr "Asha"); ("last_name", JStr "Rao ")] !! "first_name"
    = Some "Asha"
  ∧ ∃ r : row,
      normalize_result_row str_of_text
        [("first_name", JStr "Asha"); ("last_name", JStr "Rao ")] = Some r
      ∧ r !! "full_name" = Some "Asha Rao".
Proof.
  split; [compute_done|]. split; [compute_done|].
  apply (proj2 (normalize_result_row_identity str_of_text
                  [("first_name", JStr "Asha"); ("last_name", JStr "Rao ")])
               "Asha"); compute_done.
Defined.

(** C7 as stated fails: [FIELD_MAP] sends [age] to [age], which is not one
    of the nineteen fields of [COLUMN_ORDER]. *)
Lemma normalize_result_row_age_field :
  ¬ ∀ (r : row) (k : string),
      normalize_result_row str_of_text
        [("bibno", JStr "7"); ("age", JStr "34")] = Some r →
      is_Some (r !! k) → k ∈ COLUMN_ORDER.
Proof.
  intros Hall.
  specialize (Hall (<["bib" := "7"]> (<["age" := "34"]> ∅)) "age").
  assert ("age" ∉ COLUMN_ORDER) as Hnot by compute_done.
  apply Hnot, Hall; compute_done.
Qed.

(** C7, amended: every key of a row the normaliser returns is one of the
    nineteen fields of [COLUMN_ORDER] or is [age]. *)
Theorem normalize_result_row_fields
        (py_str : json → string) (item : list (string * json))
        (r : row) (k : string) :
  normalize_result_row py_str item = Some r →
  is_Some (r !! k) →
  k ∈ COLUMN_ORDER ∨ k = "age".
Proof.
  intros Hrow Hk.
  assert (Forall (fun k => k ∈ COLUMN_ORDER ∨ k = "age")
                 (map snd FIELD_MAP_items)) as Htargets by compute_done.
  rewrite Forall_forall in Htargets.
  assert ("full_name" ∈ COLUMN_ORDER) as Hfull by compute_done.
  rewrite normalize_result_row_cases in Hrow. cbv zeta in Hrow.
  destruct (mapped_row py_str item !! "bib"),
           (mapped_row py_str item !! "full_name"),
           (mapped_row py_str item !! "first_name");
    try discriminate; injection Hrow as <-;
    try (by eapply Htargets, mapped_row_keys);
    (rewrite lookup_insert in Hk; case_decide as Hkey;
     [subst; by left | by eapply Htargets, mapped_row_keys]).
Qed.

Lemma normalize_result_row_fields_witness :
  normalize_result_row str_of_text [("bibno", JStr "7"); ("age", JStr "34")]
  = Some (<["bib" := "7"]> (<["age" := "34"]> ∅))
  ∧ is_Some ((<["bib" := "7"]> (<["age" := "34"]> ∅) : row) !! "age")
  ∧ ("age" ∈ COLUMN_ORDER ∨ "age" = "age").
Proof.
  split; [compute_done|]. split; [compute_done|].
  apply (normalize_result_row_fields str_of_text
           [("bibno", JStr "7"); ("age", JStr "34")]
           (<["bib" := "7"]> (<["age" := "34"]> ∅)) "age"); compute_done.
Defined.

(** ** DOM table fallback *)

Section DomFacts.

Implicit Types (results : list row) (header_row tr : list cell)
         (body : list (list cell)).

(** A table whose header text holds no results keyword adds nothing. *)
Lemma scrape_table_skipped results header_row body :
  existsb (contains (join " " (header_texts header_row))) results_keywords
  = false →
  scrape_table results (header_row :: body) = results.
Proof.
  intros Hkw. unfold scrape_table.
  destruct (length (header_row :: body) <? 3)%nat; [reflexivity|].
  destruct (bool_decide (header_texts header_row = [])); [reflexivity|].
  rewrite Hkw. reflexivity.
Qed.

(** A table with a results header and two data rows or more goes
    through the row loop. *)
Lemma scrape_table_rows results header_row tr1 tr2 body :
  header_texts header_row ≠ [] →
  existsb (contains (join " " (header_texts header_row))) results_keywords
  = true →
  scrape_table results (header_row :: tr1 :: tr2 :: body)
  = fold_left (append_data_row (build_header_map (header_texts header_row)))
              (tr1 :: tr2 :: body) results.
Proof.
  intros Hheaders Hkw. unfold scrape_table.
  assert ((length (header_row :: tr1 :: tr2 :: body) <? 3)%nat = false) as ->.
  { apply Nat.ltb_ge. cbn [length]. lia. }
  rewrite bool_decide_eq_false_2 by exact Hheaders.
  rewrite Hkw. reflexivity.
Qed.

(** The row loop only appends. *)
Lemma fold_append_data_row header_map body : ∀ results,
  fold_left (append_data_row header_map) body results
  = results ++ fold_left (append_data_row header_map) body [].
Proof.
  induction body as [|tr body IH]; intros results; cbn [fold_left].
  - by rewrite app_nil_r.
  - rewrite IH, (IH (append_data_row header_map [] tr)).
    unfold append_data_row. destruct (data_row header_map tr).
    + rewrite <- app_assoc. reflexivity.
    + reflexivity.
Qed.

End DomFacts.

(** C8 as stated fails: a header and a single data row make two [tr]
    rows, fewer than the three the extractor asks for, and the table is
    skipped. *)
Lemma scrape_dom_table_single_row :
  scrape_dom_table [[finish_header; ravi_cells]] = []
  ∧ scrape_dom_table [[finish_header; ravi_cells]] ≠ [ravi_row].
Proof. split; [compute_done|]. by replace (scrape_dom_table _) with (@nil row) by compute_done. Qed.

(** C8, amended: when the table with headers Bib, Name, Finish Time has
    at least one more data row after 55, Ravi Shah, 01:02:33, the extractor
    produces the row with bib 55, full_name Ravi Shah and chip_time
    01:02:33 first, followed by what the further rows yield under the
    column mapping 0 to bib, 1 to full_name, 2 to chip_time; with that
    single data row it produces nothing; and a table with headers Sponsor,
    Logo adds no rows, whatever its body. *)
Theorem scrape_dom_table_scenario_c
        (second : list cell) (more sponsor_body : list (list cell))
        (results : list row) :
  scrape_dom_table [finish_header :: ravi_cells :: second :: more]
  = ravi_row ::
    fold_left
      (append_data_row
         (<[0%nat := "bib"]> (<[1%nat := "full_name"]>
            (<[2%nat := "chip_time"]> ∅))))
      (second :: more) []
  ∧ scrape_dom_table [[finish_header; ravi_cells]] = []
  ∧ scrape_table results (sponsor_header :: sponsor_body) = results.
Proof.
  split; [|split].
  - unfold scrape_dom_table. cbn [fold_left].
    rewrite scrape_table_rows by compute_done.
    replace (build_header_map (header_texts finish_header))
      with (<[0%nat := "bib"]> (<[1%nat := "full_name"]>
              (<[2%nat := "chip_time"]> (∅ : gmap nat string))))
      by compute_done.
    transitivity
      (fold_left
         (append_data_row
            (<[0%nat := "bib"]> (<[1%nat := "full_name"]>
               (<[2%nat := "chip_time"]> ∅))))
         (second :: more) [ravi_row]).
    + replace [ravi_row]
        with (append_data_row
                (<[0%nat := "bib"]> (<[1%nat := "full_name"]>
                   (<[2%nat := "chip_time"]> ∅))) [] ravi_cells)
        by compute_done.
      reflexivity.
    + rewrite fold_append_data_row. reflexivity.
  - compute_done.
  - apply scrape_table_skipped. compute_done.
Qed.

(** ** JSON path and fallback *)

Section PipelineFacts.

Variable py_str : json → string.

Lemma fold_left_preserves {A B : Type} (P : A → Prop) (f : A → B → A)
      (l : list B) : ∀ a,
  P a → (∀ a x, P a → P (f a x)) → P (fold_left f l a).
Proof.
  induction l as [|x l IH]; intros a Ha Hstep; cbn [fold_left]; auto.
Qed.

Lemma normalize_result_row_has_identity item (r : row) :
  normalize_result_row py_str item = Some r → has_identity r.
Proof.
  rewrite normalize_result_row_cases. cbv zeta. unfold has_identity.
  destruct (mapped_row py_str item !! "bib") eqn:Hbib,
           (mapped_row py_str item !! "full_name") eqn:Hfull,
           (mapped_row py_str item !! "first_name") eqn:Hfirst;
    try discriminate; intros [= <-];
    rewrite ?lookup_insert_eq, ?Hbib, ?Hfull, ?Hfirst; eauto.
Qed.

(** Every row the extractors collect came out of the normaliser. *)
Lemma collect_rows_normalized accept responses :
  Forall (fun r => ∃ item, normalize_result_row py_str item = Some r)
         (collect_rows py_str accept responses).
Proof.
  unfold collect_rows.
  apply fold_left_preserves; [constructor|]. intros results resp Hresults.
  apply fold_left_preserves; [exact Hresults|]. clear. intros results arr Hresults.
  apply fold_left_preserves; [exact Hresults|]. clear. intros results item Hresults.
  destruct (accept item); [|exact Hresults].
  destruct item as [ | | | | | |members]; try exact Hresults.
  destruct (normalize_result_row py_str members) as [r|] eqn:Hrow;
    [|exact Hresults].
  case_bool_decide; [exact Hresults|].
  apply Forall_app. split; [exact Hresults|].
  constructor; [|constructor]. by exists members.
Qed.

(** What deduplicating collected rows guarantees. *)
Lemma deduplicated_rows accept responses :
  let rows := deduplicate_results (collect_rows py_str accept responses) in
  Forall has_identity rows ∧ NoDup (map dedup_key rows).
Proof.
  cbv zeta. split; [|apply deduplicate_results_keys].
  pose proof (collect_rows_normalized accept responses) as Hall.
  rewrite Forall_forall in Hall |- *. intros r Hin.
  assert (r ∈ collect_rows py_str accept responses) as Hcollected.
  { eapply elem_of_sublist; [exact Hin|].
    rewrite deduplicate_results_from. apply dedup_from_sublist. }
  destruct (Hall r Hcollected) as [item Hitem].
  by eapply normalize_result_row_has_identity.
Qed.

(** The rows that come from the JSON path: every one carries an
    identity, and no two share a dedup key. *)
Lemma intercept_api_data_json_path platform_key api_responses tables :
  let captured_data :=
    if String.eqb platform_key "sts" then extract_sts_data py_str api_responses
    else if String.eqb platform_key "mysamay"
         then extract_mysamay_data py_str api_responses
         else extract_generic_data py_str api_responses in
  captured_data ≠ [] →
  intercept_api_data py_str platform_key api_responses tables = captured_data
  ∧ Forall has_identity captured_data
  ∧ NoDup (map dedup_key captured_data).
Proof.
  intros captured_data Hcaptured. split.
  - unfold intercept_api_data. fold captured_data.
    by destruct captured_data.
  - subst captured_data.
    destruct (String.eqb platform_key "sts");
      [|destruct (String.eqb platform_key "mysamay")];
      apply deduplicated_rows.
Qed.

End PipelineFacts.

(** C1 fails on the DOM fallback: with no JSON captured, a table of rank,
    time and pace yields rows that carry none of [bib], [full_name],
    [first_name]. *)
Theorem intercept_api_data_dom_no_identity :
  intercept_api_data str_of_text "timingindia" [] [pace_table]
  = [ <["overall_rank" := "1"]> (<["pace" := "4:00"]> ∅);
      <["overall_rank" := "2"]> (<["pace" := "4:06"]> ∅) ]
  ∧ Forall (fun r => ¬ has_identity r)
           (intercept_api_data str_of_text "timingindia" [] [pace_table]).
Proof. split; compute_done. Qed.

(** C3 fails on the DOM fallback: its rows reach the writer without going
    through the deduplicator, so a runner listed in two tables is returned
    twice under the same key. *)
Theorem intercept_api_data_dom_duplicates :
  map dedup_key
      (intercept_api_data str_of_text "timingindia" []
                          [overall_table; category_table])
  = ["55"; "56"; "55"; "61"]
  ∧ ¬ NoDup (map dedup_key
               (intercept_api_data str_of_text "timingindia" []
                                   [overall_table; category_table])).
Proof. split; compute_done. Qed.

(** * Further properties of the code *)

(** ** Candidate array finder and scorer *)

Lemma filter_length_mono {A : Type} (P Q : A → Prop)
      `{!∀ x, Decision (P x)} `{!∀ x, Decision (Q x)} (l : list A) :
  (∀ x, P x → Q x) → (length (filter P l) ≤ length (filter Q l))%nat.
Proof.
  intros HPQ. induction l as [|x l IH]; [reflexivity|].
  rewrite !filter_cons.
  destruct (decide (P x)) as [HP|HP].
  - rewrite decide_True by auto. cbn [length]. lia.
  - destruct (decide (Q x)); cbn [length]; lia.
Qed.

(** The finder returns exactly the arrays that sit at a position reached
    through object members only, within the depth bound, whose first
    element is an object and whose score exceeds 2. *)
Theorem find_result_arrays_exact
        (data : json) (depth max_depth : Z) (arr : list json) :
  arr ∈ find_result_arrays data depth max_depth
  ↔ ∃ path : list nat,
      at_path data path = Some (JArr arr)
      ∧ depth + Z.of_nat (length path) ≤ max_depth
      ∧ (∃ sample rest, arr = JObj sample :: rest)
      ∧ score_result_array arr > 2.
Proof.
  split.
  - revert depth.
    induction data as [ | b | n | bits | s | items _ | members IH ]
      using json_nested_ind; intros depth Hin.
    1-5: rewrite find_result_arrays_scalar in Hin by exact I;
         by apply elem_of_nil in Hin.
    + rewrite find_result_arrays_arr in Hin.
      destruct (Z.gtb_spec depth max_depth); [by apply elem_of_nil in Hin|].
      destruct items as [|first rest]; [by apply elem_of_nil in Hin|].
      destruct first; try (by apply elem_of_nil in Hin).
      destruct (Z.gtb_spec (score_result_array (JObj members :: rest)) 2);
        [|by apply elem_of_nil in Hin].
      apply list_elem_of_singleton in Hin as ->.
      exists []. cbn [at_path length]. repeat split; [lia|eauto|lia].
    + rewrite find_result_arrays_obj in Hin.
      destruct (Z.gtb_spec depth max_depth); [by apply elem_of_nil in Hin|].
      apply list_elem_of_In, in_flat_map in Hin as ([k v] & Hkv & Hin).
      apply list_elem_of_In in Hkv, Hin.
      rewrite Forall_forall in IH. specialize (IH _ Hkv). cbn [snd] in IH.
      assert (arr ∈ find_result_arrays v (depth + 1) max_depth) as Hv.
      { unfold from_member in Hin. cbn [snd] in Hin.
        destruct v; try (by apply elem_of_nil in Hin); exact Hin. }
      destruct (IH _ Hv) as (path & Hpath & Hdepth & Hshape & Hscore).
      apply list_elem_of_lookup in Hkv as [i Hi].
      exists (i :: path). cbn [at_path length]. rewrite Hi.
      repeat split; [exact Hpath|lia|exact Hshape|exact Hscore].
  - intros (path & Hpath & Hdepth & (sample & rest & ->) & Hscore).
    revert data depth Hpath Hdepth.
    induction path as [|i path IH]; intros data depth Hpath Hdepth.
    + cbn [at_path] in Hpath. injection Hpath as ->.
      rewrite find_result_arrays_arr. cbn [length] in Hdepth.
      destruct (Z.gtb_spec depth max_depth); [lia|].
      destruct (Z.gtb_spec (score_result_array (JObj sample :: rest)) 2); [|lia].
      by apply list_elem_of_singleton.
    + cbn [at_path] in Hpath.
      destruct data as [ | | | | | |members]; try discriminate.
      destruct (members !! i) as [[k v]|] eqn:Hi; [|discriminate].
      rewrite find_result_arrays_obj. cbn [length] in Hdepth.
      destruct (Z.gtb_spec depth max_depth); [lia|].
      apply list_elem_of_In, in_flat_map. exists (k, v). split.
      * apply list_elem_of_In, list_elem_of_lookup. eauto.
      * apply list_elem_of_In. unfold from_member. cbn [snd].
        assert (arr_or_obj : match v with JArr _ | JObj _ => True | _ => False end).
        { destruct path; cbn [at_path] in Hpath.
          - by injection Hpath as ->.
          - by destruct v. }
        assert (JObj sample :: rest ∈ find_result_arrays v (depth + 1) max_depth)
          as Hv by (apply IH; [exact Hpath|lia]).
        destruct v; try contradiction; exact Hv.
Qed.

(** The score lies between 0 and 50, and is 0 for an empty array or one
    whose first element is not an object. *)
Theorem score_result_array_bounds (arr : list json) :
  0 ≤ score_result_array arr ≤ 50
  ∧ (match arr with JObj _ :: _ => False | _ => True end →
     score_result_array arr = 0).
Proof.
  split.
  - destruct arr as [|first rest]; [unfold score_result_array; lia|].
    destruct first as [ | | | | | |members];
      try (unfold score_result_array; lia).
    rewrite score_result_array_closed.
    pose proof (length_filter (.∈ lowered_keys members) strong) as Hs.
    pose proof (length_filter (.∈ lowered_keys members) moderate) as Hm.
    change (length strong) with 15%nat in Hs.
    change (length moderate) with 16%nat in Hm.
    repeat gtb_cases; lia.
  - destruct arr as [|first rest]; [reflexivity|].
    destruct first; try reflexivity. contradiction.
Qed.

Lemma score_result_array_bounds_witness :
  match [JStr "x"; runner_sample] with JObj _ :: _ => False | _ => True end
  ∧ score_result_array [JStr "x"; runner_sample] = 0.
Proof.
  split; [exact I|].
  apply (proj2 (score_result_array_bounds [JStr "x"; runner_sample])).
  exact I.
Defined.

(** Adding members to the first element never lowers the score. *)
Theorem score_result_array_more_keys
        (sample extra : list (string * json)) (rest : list json) :
  score_result_array (JObj sample :: rest)
  ≤ score_result_array (JObj (sample ++ extra) :: rest).
Proof.
  rewrite !score_result_array_closed.
  assert (∀ x, x ∈ lowered_keys sample → x ∈ lowered_keys (sample ++ extra))
    as Hsub.
  { intros x. rewrite !elem_of_lowered_keys.
    intros (k & v & Hin & ->). exists k, v. split; [|reflexivity].
    apply elem_of_app. by left. }
  pose proof (filter_length_mono _ _ strong Hsub).
  pose proof (filter_length_mono _ _ moderate Hsub).
  repeat gtb_cases; lia.
Qed.

(** An array of more than 100 elements whose first element is an object
    is a candidate whatever the keys of that object: the two length
    bonuses alone pass the threshold. *)
Theorem find_result_arrays_large_array
        (sample : list (string * json)) (rest : list json)
        (depth max_depth : Z) :
  (100 ≤ length rest)%nat →
  depth ≤ max_depth →
  score_result_array (JObj sample :: rest) > 2
  ∧ find_result_arrays (JArr (JObj sample :: rest)) depth max_depth
    = [JObj sample :: rest].
Proof.
  intros Hlen Hdepth.
  assert (score_result_array (JObj sample :: rest) > 2) as Hscore.
  { rewrite score_result_array_closed. repeat gtb_cases; lia. }
  split; [exact Hscore|].
  rewrite find_result_arrays_arr.
  destruct (Z.gtb_spec depth max_depth); [lia|].
  destruct (Z.gtb_spec (score_result_array (JObj sample :: rest)) 2); [|lia].
  reflexivity.
Qed.

Lemma find_result_arrays_large_array_witness :
  (100 ≤ length (replicate 100 JNull))%nat
  ∧ 0 ≤ 5
  ∧ score_result_array (JObj [] :: replicate 100 JNull) > 2
  ∧ find_result_arrays (JArr (JObj [] :: replicate 100 JNull)) 0 5
    = [JObj [] :: replicate 100 JNull].
Proof.
  split; [vm_compute; lia|]. split; [lia|].
  apply (find_result_arrays_large_array [] (replicate 100 JNull) 0 5).
  - vm_compute. lia.
  - lia.
Defined.

(** ** Row normaliser *)

Lemma lower_char_idemp (c : ascii) : lower_char (lower_char c) = lower_char c.
Proof. destruct c as [[] [] [] [] [] [] [] []]; reflexivity. Qed.

Lemma lower_idemp (s : string) : lower (lower s) = lower s.
Proof.
  induction s as [|c s IH]; cbn [lower]; [reflexivity|].
  by rewrite lower_char_idemp, IH.
Qed.

Lemma FIELD_MAP_target_truthy (key target : string) :
  FIELD_MAP !! key = Some target → truthy target = true.
Proof.
  intros Hget. apply FIELD_MAP_target in Hget.
  assert (Forall (fun t => truthy t = true) (map snd FIELD_MAP_items)) as Hall
    by compute_done.
  rewrite Forall_forall in Hall. by apply Hall.
Qed.

Section NormalizerMore.

Variable py_str : json → string.

Implicit Types (item pre post : list (string * json)) (r : row) (k : string)
         (v : json).

Lemma mapped_row_app pre post :
  mapped_row py_str (pre ++ post)
  = fold_left (normalize_field py_str) post (mapped_row py_str pre).
Proof. unfold mapped_row. apply fold_left_app. Qed.

(** The result depends on the source object through the mapped row only. *)
Lemma normalize_result_row_mapped item item' :
  mapped_row py_str item = mapped_row py_str item' →
  normalize_result_row py_str item = normalize_result_row py_str item'.
Proof. intros Heq. unfold normalize_result_row. by rewrite Heq. Qed.

Lemma normalize_field_ignored r k v :
  FIELD_MAP !! lower k = None ∨ (∃ members, v = JObj members) →
  normalize_field py_str r (k, v) = r.
Proof.
  intros [Hnone|[members ->]]; unfold normalize_field.
  - by rewrite Hnone.
  - destruct (FIELD_MAP !! lower k) as [t|]; [|reflexivity].
    by destruct (truthy t).
Qed.

Lemma normalize_result_row_skip pre post k v :
  FIELD_MAP !! lower k = None ∨ (∃ members, v = JObj members) →
  normalize_result_row py_str (pre ++ (k, v) :: post)
  = normalize_result_row py_str (pre ++ post).
Proof.
  intros Hignored. apply normalize_result_row_mapped.
  rewrite !mapped_row_app. cbn [fold_left].
  by rewrite normalize_field_ignored.
Qed.

Lemma normalize_field_stored r k v target :
  FIELD_MAP !! lower k = Some target →
  (∀ members, v ≠ JObj members) →
  normalize_field py_str r (k, v)
  = <[target := match v with JNull => "" | _ => py_str v end]> r.
Proof.
  intros Hget Hobj. unfold normalize_field.
  rewrite Hget, (FIELD_MAP_target_truthy _ _ Hget).
  destruct v; try reflexivity. by destruct (Hobj members).
Qed.

(** The keys of the mapped row, read off the source object. *)
Lemma fold_normalize_field_key item (target : string) : ∀ r,
  is_Some (fold_left (normalize_field py_str) item r !! target)
  ↔ is_Some (r !! target)
    ∨ ∃ k v, (k, v) ∈ item ∧ FIELD_MAP !! lower k = Some target
             ∧ ∀ members, v ≠ JObj members.
Proof.
  induction item as [|[k v] item IH]; intros r; cbn [fold_left].
  - split; [by left|]. intros [Hr|(k & v & Hin & _)]; [exact Hr|].
    by apply elem_of_nil in Hin.
  - rewrite IH. clear IH.
    destruct (FIELD_MAP !! lower k) as [t|] eqn:Hget.
    + assert ((∃ members, v = JObj members) ∨ (∀ members, v ≠ JObj members))
        as [Hobj|Hv] by (destruct v; eauto; right; intros; discriminate).
      * rewrite normalize_field_ignored by (by right).
        split; (intros [Hr|(k' & v' & Hin & Hget' & Hv')]; [by left|right]).
        -- exists k', v'. split; [apply elem_of_cons; right; exact Hin|split; assumption].
        -- apply elem_of_cons in Hin as [[= -> ->]|Hin].
           ++ destruct Hobj as [members ->]. by destruct (Hv' members).
           ++ exists k', v'. repeat split; assumption.
      * rewrite (normalize_field_stored _ _ _ _ Hget Hv).
        rewrite lookup_insert. split.
        -- intros [Hr|(k' & v' & Hin & Hget' & Hv')].
           ++ case_decide as Heq; [subst t|by left].
              right. exists k, v. split; [apply elem_of_cons; left; reflexivity|split; assumption].
           ++ right. exists k', v'. split; [apply elem_of_cons; right; exact Hin|split; assumption].
        -- intros [Hr|(k' & v' & Hin & Hget' & Hv')].
           ++ left. case_decide; [eauto|exact Hr].
           ++ apply elem_of_cons in Hin as [[= -> ->]|Hin].
              ** left. rewrite Hget in Hget'. injection Hget' as ->.
                 rewrite decide_True by done. eauto.
              ** right. exists k', v'. repeat split; assumption.
    + rewrite normalize_field_ignored by (by left).
      split; (intros [Hr|(k' & v' & Hin & Hget' & Hv')]; [by left|right]).
      * exists k', v'. split; [apply elem_of_cons; right; exact Hin|split; assumption].
      * apply elem_of_cons in Hin as [[= -> ->]|Hin]; [congruence|].
        exists k', v'. repeat split; assumption.
Qed.

Lemma mapped_row_key item (target : string) :
  is_Some (mapped_row py_str item !! target)
  ↔ ∃ k v, (k, v) ∈ item ∧ FIELD_MAP !! lower k = Some target
           ∧ ∀ members, v ≠ JObj members.
Proof.
  unfold mapped_row. rewrite fold_normalize_field_key.
  split; [|by right]. intros [[x Hx]|H]; [|exact H].
  by rewrite lookup_empty in Hx.
Qed.

End NormalizerMore.

(** A source object is accepted exactly when one of its members has a key
    that [FIELD_MAP] sends, lower-cased, to [bib], [full_name] or
    [first_name], and a value that is not a nested object. *)
Theorem normalize_result_row_accepts
        (py_str : json → string) (item : list (string * json)) :
  is_Some (normalize_result_row py_str item)
  ↔ ∃ (k : string) (v : json) (target : string),
      (k, v) ∈ item
      ∧ FIELD_MAP !! lower k = Some target
      ∧ target ∈ ["bib"; "full_name"; "first_name"]
      ∧ ∀ members, v ≠ JObj members.
Proof.
  pose proof (mapped_row_key py_str item "bib") as Hbib.
  pose proof (mapped_row_key py_str item "full_name") as Hfull.
  pose proof (mapped_row_key py_str item "first_name") as Hfirst.
  rewrite normalize_result_row_cases. cbv zeta. split.
  - intros Hsome.
    assert (is_Some (mapped_row py_str item !! "bib")
            ∨ is_Some (mapped_row py_str item !! "full_name")
            ∨ is_Some (mapped_row py_str item !! "first_name")) as Hid.
    { destruct (mapped_row py_str item !! "bib"); [by left; eauto|].
      destruct (mapped_row py_str item !! "full_name"); [by right; left; eauto|].
      destruct (mapped_row py_str item !! "first_name"); [by right; right; eauto|].
      by destruct Hsome. }
    destruct Hid as [H|[H|H]];
      [apply Hbib in H|apply Hfull in H|apply Hfirst in H];
      destruct H as (k & v & Hin & Hget & Hv);
      eexists k, v, _; (split; [exact Hin|]); (split; [exact Hget|]);
      (split; [|exact Hv]); repeat constructor.
  - intros (k & v & target & Hin & Hget & Htarget & Hv).
    assert (is_Some (mapped_row py_str item !! target)) as Hkey
      by (apply mapped_row_key; eauto).
    apply list_elem_of_In in Htarget. cbn [In] in Htarget.
    destruct Htarget as [<-|[<-|[<-|[]]]];
      destruct Hkey as [x Hx]; rewrite ?Hx;
      destruct (mapped_row py_str item !! "bib"),
               (mapped_row py_str item !! "full_name"),
               (mapped_row py_str item !! "first_name");
      try discriminate; eauto.
Qed.

(** A member whose lower-cased key is not in [FIELD_MAP], or whose value
    is a nested object, has no effect on the result, wherever it stands. *)
Theorem normalize_result_row_ignores
        (py_str : json → string) (pre post : list (string * json))
        (k : string) (v : json) :
  FIELD_MAP !! lower k = None ∨ (∃ members, v = JObj members) →
  normalize_result_row py_str (pre ++ (k, v) :: post)
  = normalize_result_row py_str (pre ++ post).
Proof.
  apply normalize_result_row_skip.
Qed.

Lemma normalize_result_row_ignores_witness :
  (FIELD_MAP !! lower "Rank" = None ∨ (∃ members, JStr "3" = JObj members))
  ∧ normalize_result_row str_of_text
      ([("bibno", JStr "7")] ++ ("Rank", JStr "3") :: [("name", JStr "A")])
    = normalize_result_row str_of_text
        ([("bibno", JStr "7")] ++ [("name", JStr "A")]).
Proof.
  split; [left; compute_done|].
  apply (normalize_result_row_ignores str_of_text
           [("bibno", JStr "7")] [("name", JStr "A")] "Rank" (JStr "3")).
  left. compute_done.
Defined.

(** When several members are mapped to the same field, the last one in
    the object's order decides: a mapped member at the end overwrites the
    field with its own text ([""] for null). *)
Theorem mapped_row_last_wins
        (py_str : json → string) (item : list (string * json))
        (k : string) (v : json) (target : string) :
  FIELD_MAP !! lower k = Some target →
  (∀ members, v ≠ JObj members) →
  mapped_row py_str (item ++ [(k, v)])
  = <[target := match v with JNull => "" | _ => py_str v end]>
      (mapped_row py_str item).
Proof.
  intros Hget Hv. rewrite mapped_row_app. cbn [fold_left].
  by apply normalize_field_stored.
Qed.

Lemma mapped_row_last_wins_witness :
  FIELD_MAP !! lower "Full_Name" = Some "full_name"
  ∧ (∀ members, JStr "B" ≠ JObj members)
  ∧ mapped_row str_of_text ([("name", JStr "A")] ++ [("Full_Name", JStr "B")])
    = <["full_name" := "B"]> (mapped_row str_of_text [("name", JStr "A")]).
Proof.
  split; [compute_done|]. split; [intros members; discriminate|].
  apply (mapped_row_last_wins str_of_text [("name", JStr "A")]
           "Full_Name" (JStr "B") "full_name").
  - compute_done.
  - intros members. discriminate.
Defined.


(** The row returned differs from the mapped row at most in [full_name]:
    a [full_name] taken from the source is kept as it is, and a returned
    row that has [first_name] has [full_name] too. *)
Theorem normalize_result_row_full_name
        (py_str : json → string) (item : list (string * json)) (r : row) :
  normalize_result_row py_str item = Some r →
  (∀ k, k ≠ "full_name" → r !! k = mapped_row py_str item !! k)
  ∧ (is_Some (mapped_row py_str item !! "full_name") →
     r = mapped_row py_str item)
  ∧ (is_Some (r !! "first_name") → is_Some (r !! "full_name")).
Proof.
  rewrite normalize_result_row_cases. cbv zeta.
  destruct (mapped_row py_str item !! "bib") eqn:Hbib,
           (mapped_row py_str item !! "full_name") eqn:Hfull,
           (mapped_row py_str item !! "first_name") eqn:Hfirst;
    try discriminate; intros [= <-];
    (split; [intros k Hk; by rewrite ?lookup_insert_ne by done|]);
    (split; [intros [x Hx]; congruence|]);
    rewrite ?lookup_insert_eq, ?Hfull, ?Hfirst; eauto;
    intros [x Hx]; congruence.
Qed.

Lemma normalize_result_row_full_name_witness :
  normalize_result_row str_of_text
    [("name", JStr "Dev Kumar"); ("first_name", JStr "D")]
  = Some (<["full_name" := "Dev Kumar"]> (<["first_name" := "D"]> ∅))
  ∧ (<["full_name" := "Dev Kumar"]> (<["first_name" := "D"]> ∅) : row)
    = mapped_row str_of_text
        [("name", JStr "Dev Kumar"); ("first_name", JStr "D")].
Proof.
  split; [compute_done|].
  apply (normalize_result_row_full_name str_of_text
           [("name", JStr "Dev Kumar"); ("first_name", JStr "D")]
           (<["full_name" := "Dev Kumar"]> (<["first_name" := "D"]> ∅)));
    compute_done.
Defined.



(** ** Deduplicator *)

Lemma dedup_from_covers (results : list row) : ∀ (seen : gset string) (r : row),
  r ∈ results → dedup_key r ≠ "" →
  dedup_key r ∈ seen
  ∨ ∃ r', r' ∈ dedup_from seen results ∧ dedup_key r' = dedup_key r.
Proof.
  induction results as [|r0 results IH]; intros seen r Hin Hne.
  - by apply elem_of_nil in Hin.
  - cbn [dedup_from].
    destruct (truthy (dedup_key r0) && negb (bool_decide (dedup_key r0 ∈ seen)))
      eqn:Hkeep.
    + apply elem_of_cons in Hin as [->|Hin].
      * right. exists r0. split; [by apply elem_of_cons; left|reflexivity].
      * destruct (IH ({[dedup_key r0]} ∪ seen) r Hin Hne)
          as [Hseen|(r' & Hr' & Hkey)].
        -- apply elem_of_union in Hseen as [Hr0|Hseen]; [|by left].
           apply elem_of_singleton in Hr0. right. exists r0.
           split; [by apply elem_of_cons; left|done].
        -- right. exists r'. split; [by apply elem_of_cons; right|done].
    + apply elem_of_cons in Hin as [->|Hin]; [|by apply IH].
      left. apply andb_false_iff in Hkeep as [Hempty|Hseen].
      * destruct (dedup_key r0); [done|discriminate].
      * by apply negb_false_iff, bool_decide_eq_true in Hseen.
Qed.

Lemma dedup_from_unchanged (results : list row) : ∀ seen : gset string,
  Forall (fun r => dedup_key r ≠ "" ∧ dedup_key r ∉ seen) results →
  NoDup (map dedup_key results) →
  dedup_from seen results = results.
Proof.
  induction results as [|r0 results IH]; intros seen Hall Hdup; [reflexivity|].
  cbn [dedup_from]. apply Forall_cons in Hall as [[Hne Hfresh] Hall].
  cbn [map] in Hdup. apply NoDup_cons in Hdup as [Hr0 Hdup].
  rewrite (proj2 (truthy_nonempty _) Hne), bool_decide_eq_false_2 by done.
  cbn [andb negb]. f_equal. apply IH; [|exact Hdup].
  rewrite Forall_forall in Hall |- *. intros r Hin.
  destruct (Hall r Hin) as [Hne' Hfresh']. split; [exact Hne'|].
  intros [Heq%elem_of_singleton|Hseen]%elem_of_union; [|done].
  apply Hr0. rewrite <- Heq. apply list_elem_of_fmap. by exists r.
Qed.

(** What the deduplicator returns: keys are non-empty and pairwise
    distinct, each kept row is the first input row with its key, and
    every non-empty key of the input is still represented. *)
Theorem deduplicate_results_first_wins (results : list row) :
  NoDup (map dedup_key (deduplicate_results results))
  ∧ (∀ r, r ∈ deduplicate_results results →
       dedup_key r ≠ ""
       ∧ ∃ before after,
           results = before ++ r :: after
           ∧ Forall (fun r' => dedup_key r' ≠ dedup_key r) before)
  ∧ (∀ r, r ∈ results → dedup_key r ≠ "" →
       ∃ r', r' ∈ deduplicate_results results ∧ dedup_key r' = dedup_key r).
Proof.
  rewrite deduplicate_results_from. split; [|split].
  - apply dedup_from_NoDup.
  - intros r Hin. split.
    + by apply dedup_from_key in Hin as [Hne _].
    + by apply dedup_from_first in Hin.
  - intros r Hin Hne.
    destruct (dedup_from_covers results ∅ r Hin Hne) as [Hseen|Hcov];
      [by apply elem_of_empty in Hseen|exact Hcov].
Qed.

(** Rows whose keys are non-empty and pairwise distinct pass through the
    deduplicator unchanged. *)
Theorem deduplicate_results_unchanged (results : list row) :
  Forall (fun r => dedup_key r ≠ "") results →
  NoDup (map dedup_key results) →
  deduplicate_results results = results.
Proof.
  intros Hall Hdup. rewrite deduplicate_results_from.
  apply dedup_from_unchanged; [|exact Hdup].
  rewrite Forall_forall in Hall |- *. intros r Hin.
  split; [by apply Hall|apply not_elem_of_empty].
Qed.

Lemma deduplicate_results_unchanged_witness :
  Forall (fun r => dedup_key r ≠ "")
         [(<["bib" := "7"]> ∅ : row); <["full_name" := "Asha Rao"]> ∅]
  ∧ NoDup (map dedup_key
             [(<["bib" := "7"]> ∅ : row); <["full_name" := "Asha Rao"]> ∅])
  ∧ deduplicate_results
      [(<["bib" := "7"]> ∅ : row); <["full_name" := "Asha Rao"]> ∅]
    = [<["bib" := "7"]> ∅; <["full_name" := "Asha Rao"]> ∅].
Proof.
  split; [compute_done|]. split; [compute_done|].
  apply (deduplicate_results_unchanged
           [(<["bib" := "7"]> ∅ : row); <["full_name" := "Asha Rao"]> ∅]);
    compute_done.
Defined.

(** ** JSON extractors and fallback *)

Section ExtractorFacts.

Variable py_str : json → string.

Lemma deduplicated_clean accept responses :
  clean_rows (deduplicate_results (collect_rows py_str accept responses)).
Proof.
  destruct (deduplicated_rows py_str accept responses) as [Hid Hdup].
  split; [exact Hid|]. split; [|exact Hdup].
  apply Forall_forall. intros r Hin.
  rewrite deduplicate_results_from in Hin.
  by apply dedup_from_key in Hin as [Hne _].
Qed.

Lemma insert_by_size_Permutation r l : insert_by_size r l ≡ₚ r :: l.
Proof.
  induction l as [|x l IH]; cbn [insert_by_size]; [reflexivity|].
  destruct (size r <? size x); [|reflexivity].
  rewrite IH. apply Permutation_swap.
Qed.

Lemma insert_by_size_filter r l (s : Z) :
  filter (fun x => size x = s) (insert_by_size r l)
  = filter (fun x => size x = s) (r :: l).
Proof.
  induction l as [|x l IH]; cbn [insert_by_size]; [reflexivity|].
  destruct (Z.ltb_spec (size r) (size x)) as [Hlt|Hge]; [|reflexivity].
  rewrite (filter_cons _ x), IH, !filter_cons.
  destruct (decide (size x = s)), (decide (size r = s)); try reflexivity. lia.
Qed.

Lemma insert_by_size_Sorted r l :
  Sorted (fun a b => size b ≤ size a) l →
  Sorted (fun a b => size b ≤ size a) (insert_by_size r l).
Proof.
  induction l as [|x l IH]; intros Hsorted; cbn [insert_by_size].
  - repeat constructor.
  - apply Sorted_inv in Hsorted as [Hl Hhd].
    destruct (Z.ltb_spec (size r) (size x)) as [Hlt|Hge].
    + constructor; [by apply IH|].
      destruct l as [|y l]; cbn [insert_by_size].
      * constructor. lia.
      * apply HdRel_inv in Hhd.
        destruct (size r <? size y); constructor; lia.
    + constructor; [by constructor|]. constructor. exact Hge.
Qed.

Lemma insert_by_size_head r l :
  HdRel (fun a b => size b ≤ size a) r l → insert_by_size r l = r :: l.
Proof.
  destruct l as [|x l]; [reflexivity|]. intros Hhd%HdRel_inv.
  cbn [insert_by_size]. by destruct (Z.ltb_spec (size r) (size x)); [lia|].
Qed.

Lemma sorted_by_size_desc_fixed l :
  Sorted (fun a b => size b ≤ size a) l → sorted_by_size_desc l = l.
Proof.
  induction l as [|x l IH]; [reflexivity|]. intros [Hl Hhd]%Sorted_inv.
  unfold sorted_by_size_desc in *. cbn [foldr]. rewrite IH by exact Hl.
  by apply insert_by_size_head.
Qed.

End ExtractorFacts.

(** Whatever was captured, each of the three extractors returns rows that
    all carry an identity and whose dedup keys are non-empty and pairwise
    distinct. *)
Theorem json_extractors_clean
        (py_str : json → string) (api_responses : list api_response) :
  clean_rows (extract_sts_data py_str api_responses)
  ∧ clean_rows (extract_mysamay_data py_str api_responses)
  ∧ clean_rows (extract_generic_data py_str api_responses).
Proof. repeat split; apply deduplicated_clean. Qed.


(** The generic extractor goes through the responses largest first,
    responses of equal size in capture order: the order it uses is a
    rearrangement of the captured responses, sizes never increase along
    it, and the responses of any one size keep their relative order. *)
Theorem sorted_by_size_desc_stable (api_responses : list api_response) :
  sorted_by_size_desc api_responses ≡ₚ api_responses
  ∧ Sorted (fun a b => size b ≤ size a) (sorted_by_size_desc api_responses)
  ∧ ∀ s : Z,
      filter (fun r => size r = s) (sorted_by_size_desc api_responses)
      = filter (fun r => size r = s) api_responses.
Proof.
  unfold sorted_by_size_desc.
  induction api_responses as [|r l (Hperm & Hsorted & Hstable)];
    cbn [foldr].
  - repeat split; constructor.
  - split; [|split].
    + rewrite insert_by_size_Permutation. by constructor.
    + by apply insert_by_size_Sorted.
    + intros s. rewrite insert_by_size_filter, !filter_cons, Hstable.
      reflexivity.
Qed.

(** When the captured responses already come largest first, the generic
    extractor returns what the MySamay extractor returns. *)
Theorem extract_generic_data_sorted_input
        (py_str : json → string) (api_responses : list api_response) :
  Sorted (fun a b => size b ≤ size a) api_responses →
  extract_generic_data py_str api_responses
  = extract_mysamay_data py_str api_responses.
Proof.
  intros Hsorted. unfold extract_generic_data, extract_mysamay_data.
  by rewrite sorted_by_size_desc_fixed.
Qed.

Lemma extract_generic_data_sorted_input_witness :
  Sorted (fun a b => size b ≤ size a)
         [ApiResponse "https://t.example/a" 200 (JArr [runner_sample]) 120;
          ApiResponse "https://t.example/b" 200 (JObj []) 60]
  ∧ extract_generic_data str_of_text
      [ApiResponse "https://t.example/a" 200 (JArr [runner_sample]) 120;
       ApiResponse "https://t.example/b" 200 (JObj []) 60]
    = extract_mysamay_data str_of_text
        [ApiResponse "https://t.example/a" 200 (JArr [runner_sample]) 120;
         ApiResponse "https://t.example/b" 200 (JObj []) 60].
Proof.
  split; [repeat constructor; cbn; lia|].
  apply (extract_generic_data_sorted_input str_of_text
           [ApiResponse "https://t.example/a" 200 (JArr [runner_sample]) 120;
            ApiResponse "https://t.example/b" 200 (JObj []) 60]).
  repeat constructor; cbn; lia.
Defined.

(** ** DOM table fallback: headers *)

Section Substrings.

Implicit Types (h n a b : string).

Lemma string_app_cons (x : ascii) a b : String x a +:+ b = String x (a +:+ b).
Proof. reflexivity. Qed.

Lemma string_app_nil b : "" +:+ b = b.
Proof. reflexivity. Qed.

Lemma string_app_assoc a b (c : string) : (a +:+ b) +:+ c = a +:+ (b +:+ c).
Proof.
  induction a as [|x a IH]; [reflexivity|].
  by rewrite !string_app_cons, IH.
Qed.

Lemma prefix_spec n h : String.prefix n h = true ↔ ∃ b, h = n +:+ b.
Proof.
  revert h. induction n as [|x n IH]; intros h.
  - split; [intros _; by exists h|]. intros _. by destruct h.
  - destruct h as [|y h]; cbn [String.prefix].
    + split; [discriminate|]. intros [b Hb]. discriminate.
    + destruct (ascii_dec x y) as [->|Hne].
      * rewrite IH. split; intros [b Hb]; exists b.
        -- by rewrite string_app_cons, Hb.
        -- rewrite string_app_cons in Hb. by injection Hb.
      * split; [discriminate|]. intros [b Hb].
        rewrite string_app_cons in Hb. congruence.
Qed.

(** [contains] is the substring test. *)
Lemma contains_spec h n : contains h n = true ↔ ∃ a b, h = a +:+ n +:+ b.
Proof.
  split.
  - induction h as [|c h IH]; cbn [contains]; intros Hc.
    + rewrite orb_false_r in Hc. apply prefix_spec in Hc as [b Hb].
      by exists "", b.
    + apply orb_true_iff in Hc as [Hp|Hc].
      * apply prefix_spec in Hp as [b Hb]. by exists "", b.
      * destruct (IH Hc) as (a & b & ->). by exists (String c a), b.
  - intros (a & b & ->). induction a as [|c a IH].
    + rewrite string_app_nil.
      assert (String.prefix n (n +:+ b) = true) as Hp
        by (apply prefix_spec; by exists b).
      destruct (n +:+ b); cbn [contains]; by rewrite Hp.
    + rewrite string_app_cons. cbn [contains]. rewrite IH. apply orb_true_r.
Qed.

Lemma contains_trans h a b :
  contains h a = true → contains a b = true → contains h b = true.
Proof.
  rewrite !contains_spec. intros (x & y & ->) (x' & y' & ->).
  exists (x +:+ x'), (y' +:+ y). by rewrite !string_app_assoc.
Qed.

Lemma underscored_app a b :
  underscored (a +:+ b) = underscored a +:+ underscored b.
Proof.
  induction a as [|c a IH]; [reflexivity|].
  rewrite string_app_cons. cbn [underscored].
  by rewrite string_app_cons, IH.
Qed.

Lemma contains_underscored h n :
  contains h n = true → contains (underscored h) (underscored n) = true.
Proof.
  rewrite !contains_spec. intros (a & b & ->).
  exists (underscored a), (underscored b). by rewrite !underscored_app.
Qed.

End Substrings.

Section HeaderFacts.

(** A match at some position makes [find] stop at or before it. *)
Lemma find_before {A : Type} (f : A → bool) (l1 l2 : list A) (y : A) :
  f y = true → ∃ x, find f (l1 ++ y :: l2) = Some x ∧ x ∈ l1 ++ [y].
Proof.
  intros Hy. induction l1 as [|z l1 (x & Hx & Hin)]; cbn [app find].
  - rewrite Hy. exists y. split; [reflexivity|by apply list_elem_of_singleton].
  - destruct (f z).
    + exists z. split; [reflexivity|by apply elem_of_cons; left].
    + exists x. split; [exact Hx|by apply elem_of_cons; right].
Qed.

(** A header whose underscored text holds the key at position [n] of
    [FIELD_MAP] is mapped by one of the first [n + 1] entries. *)
Lemma header_find_before (h key target : string) (n : nat) :
  FIELD_MAP_items !! n = Some (key, target) →
  contains (underscored h) key = true →
  ∃ x, find (fun kv => contains (underscored h) (fst kv)) FIELD_MAP_items
       = Some x
       ∧ x ∈ take (S n) FIELD_MAP_items.
Proof.
  intros Hn Hc.
  pose proof (take_drop_middle _ _ _ Hn) as Hsplit.
  destruct (find_before (fun kv => contains (underscored h) (fst kv))
              (take n FIELD_MAP_items) (drop (S n) FIELD_MAP_items)
              (key, target) Hc) as (x & Hx & Hin).
  exists x. split.
  - rewrite <- Hx. f_equal. symmetry. exact Hsplit.
  - by rewrite (take_S_r _ _ _ Hn).
Qed.

Lemma fuzzy_match_range (h f : string) :
  fuzzy_match h = Some f →
  f ∈ ["bib"; "full_name"; "chip_time"; "gun_time"; "overall_rank";
       "category_rank"; "pace"; "age_group"; "gender"; "category"; "club"]
  ∧ (f = "age_group" → contains h "age" = true).
Proof.
  unfold fuzzy_match.
  repeat match goal with
         | |- (if ?c then _ else _) = _ → _ => destruct c eqn:?
         end;
    intros [= <-]; (split; [compute_done|]);
    intros Hage; first [discriminate Hage | reflexivity].
Qed.

End HeaderFacts.

Lemma header_field_targets (h f : string) :
  header_field h = Some f →
  (f ∈ COLUMN_ORDER ∨ f = "age")
  ∧ f ≠ "gun_pace" ∧ f ≠ "age_group" ∧ f ≠ "race_category".
Proof.
  unfold header_field.
  destruct (find _ FIELD_MAP_items) as [[key norm]|] eqn:Hfind.
  - intros [= ->]. pose proof Hfind as Hsome.
    apply find_some in Hsome as [Hin Hc]. cbn [fst] in Hc.
    apply list_elem_of_In in Hin.
    assert (Forall
              (fun kv =>
                 (snd kv ∈ COLUMN_ORDER ∨ snd kv = "age")
                 ∧ (snd kv = "gun_pace" → contains (fst kv) "pace" = true)
                 ∧ (snd kv = "age_group" → contains (fst kv) "age" = true)
                 ∧ (snd kv = "race_category" → contains (fst kv) "name" = true))
              FIELD_MAP_items) as Hitems by compute_done.
    rewrite Forall_forall in Hitems.
    destruct (Hitems _ Hin) as (Hrange & Hpace & Hage & Hname).
    cbn [fst snd] in *. split; [exact Hrange|].
    assert (∀ (shadow target : string) (n : nat),
              FIELD_MAP_items !! n = Some (shadow, target) →
              contains key shadow = true →
              Forall (fun kv => snd kv ≠ f) (take (S n) FIELD_MAP_items) →
              False) as Hshadow.
    { intros shadow target n Hn Hks Hall.
      destruct (header_find_before h shadow target n Hn
                  (contains_trans _ _ _ Hc Hks)) as (x & Hx & Hx').
      rewrite Hfind in Hx. injection Hx as <-.
      rewrite Forall_forall in Hall. by apply (Hall _ Hx'). }
    repeat split; intros ->.
    + apply (Hshadow "pace" "pace" 24%nat); [reflexivity|by apply Hpace|].
      compute_done.
    + apply (Hshadow "age" "age" 34%nat); [reflexivity|by apply Hage|].
      compute_done.
    + apply (Hshadow "name" "full_name" 12%nat); [reflexivity|by apply Hname|].
      compute_done.
  - intros Hfuzzy. apply fuzzy_match_range in Hfuzzy as [Hrange Hage].
    assert (f ≠ "age_group") as Hnot_age.
    { intros ->.
      destruct (header_find_before h "age" "age" 34%nat eq_refl
                  (contains_underscored h "age" (Hage eq_refl)))
        as (x & Hx & _).
      by rewrite Hfind in Hx. }
    apply list_elem_of_In in Hrange. cbn [In] in Hrange.
    repeat destruct Hrange as [<-|Hrange]; try contradiction;
      (split; [left; compute_done|]); repeat split; discriminate.
Qed.

(** The field a column header is mapped to is one of the nineteen of
    [COLUMN_ORDER] or [age], and never [gun_pace], [age_group] or
    [race_category]: every [FIELD_MAP] key for these contains an earlier
    key ([pace], [age], [name]) that takes the header first. *)
Theorem header_field_range (h f : string) :
  header_field h = Some f →
  (f ∈ COLUMN_ORDER ∨ f = "age")
  ∧ f ≠ "gun_pace" ∧ f ≠ "age_group" ∧ f ≠ "race_category".
Proof. apply header_field_targets. Qed.

Lemma header_field_range_witness :
  header_field "age group" = Some "age"
  ∧ ("age" ∈ COLUMN_ORDER ∨ "age" = "age")
  ∧ "age" ≠ "gun_pace" ∧ "age" ≠ "age_group" ∧ "age" ≠ "race_category".
Proof.
  split; [compute_done|].
  apply (header_field_range "age group" "age"). compute_done.
Defined.

(** ** DOM table fallback: rows *)

Section Stripping.

Lemma rstrip_idemp (s : string) : rstrip (rstrip s) = rstrip s.
Proof.
  induction s as [|c s IH]; [reflexivity|]. cbn [rstrip].
  destruct (rstrip s) as [|d r] eqn:Hr.
  - destruct (isspace c) eqn:Hc; [reflexivity|]. cbn [rstrip]. by rewrite Hc.
  - cbn [rstrip]. cbn [rstrip] in IH. by rewrite IH.
Qed.

Lemma rstrip_head (c : ascii) (t : string) :
  isspace c = false → ∃ t', rstrip (String c t) = String c t'.
Proof.
  intros Hc. cbn [rstrip]. destruct (rstrip t) as [|d r].
  - rewrite Hc. by exists "".
  - by exists (String d r).
Qed.

Lemma lstrip_head (s : string) :
  lstrip s = "" ∨ ∃ c t, lstrip s = String c t ∧ isspace c = false.
Proof.
  induction s as [|c s IH]; [by left|]. cbn [lstrip].
  destruct (isspace c) eqn:Hc; [exact IH|]. right. by exists c, s.
Qed.

Lemma strip_idemp (s : string) : strip (strip s) = strip s.
Proof.
  unfold strip. destruct (lstrip_head s) as [->|(c & t & -> & Hc)];
    [reflexivity|].
  destruct (rstrip_head c t Hc) as [t' Ht']. rewrite Ht' at 1.
  cbn [lstrip]. rewrite Hc, <- Ht'. apply rstrip_idemp.
Qed.

End Stripping.

Section DomRows.

Implicit Types (results : list row) (rows body : list (list cell))
         (tr : list cell) (header_map : gmap nat string).

Lemma scrape_table_append results rows :
  scrape_table results rows = results ++ scrape_table [] rows.
Proof.
  unfold scrape_table.
  destruct (length rows <? 3)%nat; [by rewrite app_nil_r|].
  destruct rows as [|header_row body]; [by rewrite app_nil_r|].
  destruct (bool_decide (header_texts header_row = []));
    [by rewrite app_nil_r|].
  destruct (negb _); [by rewrite app_nil_r|].
  apply fold_append_data_row.
Qed.

Lemma fold_scrape_table_append (tables : list (list (list cell))) :
  ∀ results,
    fold_left scrape_table tables results
    = results ++ fold_left scrape_table tables [].
Proof.
  induction tables as [|t tables IH]; intros results; cbn [fold_left].
  - by rewrite app_nil_r.
  - rewrite IH, (IH (scrape_table [] t)), (scrape_table_append results t).
    by rewrite app_assoc.
Qed.

Lemma fold_append_data_row_length header_map body :
  (length (fold_left (append_data_row header_map) body []) ≤ length body)%nat.
Proof.
  induction body as [|tr body IH]; cbn [fold_left length]; [lia|].
  rewrite fold_append_data_row, length_app.
  unfold append_data_row at 1. destruct (data_row header_map tr); cbn; lia.
Qed.

Lemma build_header_map_range (headers : list string) (i : nat) (f : string) :
  build_header_map headers !! i = Some f → ∃ h, header_field h = Some f.
Proof.
  unfold build_header_map.
  assert (∀ i f, (∅ : gmap nat string) !! i = Some f
                 → ∃ h, header_field h = Some f) as Hinv
    by (intros ? ? H; by rewrite lookup_empty in H).
  revert Hinv. generalize (∅ : gmap nat string).
  generalize (enumerate headers). intros l. revert i f.
  induction l as [|[j h] l IH]; intros i f m Hinv; cbn [fold_left fst snd].
  - apply Hinv.
  - apply IH. clear IH i f. intros i f.
    destruct (header_field h) as [norm|] eqn:Hh; [|apply Hinv].
    rewrite lookup_insert. case_decide; [|apply Hinv].
    intros [= <-]. by exists h.
Qed.

Lemma data_row_fields header_map tr (r : row) :
  data_row header_map tr = Some r →
  r ≠ ∅
  ∧ ∀ k v, r !! k = Some v →
      (∃ i, header_map !! i = Some k) ∧ strip v = v.
Proof.
  unfold data_row. destruct (length _ =? 0)%nat; [discriminate|].
  case_bool_decide as Hempty; [discriminate|]. intros [= <-].
  split; [exact Hempty|]. clear Hempty.
  assert (∀ k v, (∅ : row) !! k = Some v
                 → (∃ i, header_map !! i = Some k) ∧ strip v = v) as Hinv
    by (intros ? ? H; by rewrite lookup_empty in H).
  revert Hinv. generalize (∅ : row).
  generalize (enumerate (filter (fun c => is_td c = true) tr)).
  intros l. induction l as [|[i c] l IH]; intros m Hinv; cbn [fold_left fst snd].
  - exact Hinv.
  - apply IH. clear IH. intros k v.
    destruct (header_map !! i) as [field|] eqn:Hi; [|apply Hinv].
    rewrite lookup_insert. case_decide as Hk; [|apply Hinv].
    intros [= <-]. subst k. split; [by exists i|apply strip_idemp].
Qed.

(** Every row the DOM loops append satisfies what [data_row] gives. *)
Lemma scrape_dom_table_rows_from (tables : list (list (list cell))) :
  Forall (fun r : row => ∃ headers tr,
            data_row (build_header_map headers) tr = Some r)
         (scrape_dom_table tables).
Proof.
  unfold scrape_dom_table.
  apply fold_left_preserves; [constructor|]. intros results rows Hresults.
  unfold scrape_table.
  destruct (length rows <? 3)%nat; [exact Hresults|].
  destruct rows as [|header_row body]; [exact Hresults|].
  destruct (bool_decide _); [exact Hresults|].
  destruct (negb _); [exact Hresults|].
  apply fold_left_preserves; [exact Hresults|]. clear.
  intros results tr Hresults. unfold append_data_row.
  destruct (data_row _ tr) as [r|] eqn:Hr; [|exact Hresults].
  apply Forall_app. split; [exact Hresults|].
  constructor; [|constructor]. eauto.
Qed.

End DomRows.

(** The tables of a page are scraped independently of each other: the
    rows of a sequence of tables are the rows of its first part followed
    by the rows of the rest. *)
Theorem scrape_dom_table_app (tables1 tables2 : list (list (list cell))) :
  scrape_dom_table (tables1 ++ tables2)
  = scrape_dom_table tables1 ++ scrape_dom_table tables2.
Proof.
  unfold scrape_dom_table. rewrite fold_left_app.
  apply fold_scrape_table_append.
Qed.

(** A table yields at most one row per [tr] after its first, and no row
    at all when it has fewer than three [tr] rows. *)
Theorem scrape_dom_table_row_count (rows : list (list cell)) :
  (length (scrape_dom_table [rows]) ≤ length rows - 1)%nat
  ∧ ((length rows < 3)%nat → scrape_dom_table [rows] = []).
Proof.
  unfold scrape_dom_table. cbn [fold_left]. unfold scrape_table.
  destruct (Nat.ltb_spec (length rows) 3) as [Hshort|Hlong].
  - split; [cbn; lia|reflexivity].
  - split; [|lia].
    destruct rows as [|header_row body]; [cbn; lia|].
    destruct (bool_decide _); [cbn; lia|].
    destruct (negb _); [cbn; lia|].
    pose proof (fold_append_data_row_length
                  (build_header_map (header_texts header_row)) body).
    cbn [length]. lia.
Qed.

Lemma scrape_dom_table_row_count_witness :
  (length [finish_header; ravi_cells] < 3)%nat
  ∧ scrape_dom_table [[finish_header; ravi_cells]] = [].
Proof.
  split; [cbn; lia|].
  apply (scrape_dom_table_row_count [finish_header; ravi_cells]).
  cbn. lia.
Defined.

(** Every row of the DOM fallback is non-empty; each of its keys is one
    of the nineteen fields of [COLUMN_ORDER] or [age], and never
    [gun_pace], [age_group] or [race_category]; each of its values is
    stripped of surrounding white space. *)
Theorem scrape_dom_table_rows
        (tables : list (list (list cell))) (r : row) :
  r ∈ scrape_dom_table tables →
  r ≠ ∅
  ∧ ∀ k v, r !! k = Some v →
      (k ∈ COLUMN_ORDER ∨ k = "age")
      ∧ k ≠ "gun_pace" ∧ k ≠ "age_group" ∧ k ≠ "race_category"
      ∧ strip v = v.
Proof.
  intros Hin.
  pose proof (scrape_dom_table_rows_from tables) as Hall.
  rewrite Forall_forall in Hall.
  destruct (Hall r Hin) as (headers & tr & Hrow).
  apply data_row_fields in Hrow as [Hne Hfields].
  split; [exact Hne|]. intros k v Hk.
  destruct (Hfields k v Hk) as [[i Hi] Hstrip].
  apply build_header_map_range in Hi as [h Hh].
  destruct (header_field_targets h k Hh) as (H1 & H2 & H3 & H4).
  repeat split; assumption.
Qed.

Lemma scrape_dom_table_rows_witness :
  ravi_row ∈ scrape_dom_table [overall_table]
  ∧ ravi_row ≠ ∅
  ∧ ∀ k v, ravi_row !! k = Some v →
      (k ∈ COLUMN_ORDER ∨ k = "age")
      ∧ k ≠ "gun_pace" ∧ k ≠ "age_group" ∧ k ≠ "race_category"
      ∧ strip v = v.
Proof.
  split; [compute_done|].
  apply (scrape_dom_table_rows [overall_table] ravi_row). compute_done.
Defined.

(** ** CSV output *)

#[local] Instance str_le_total : Total str_le.
Proof. intros a b. apply String.leb_total. Qed.

Section CsvFacts.

Implicit Types (results : list row) (c : string).

Lemma fold_all_fields results : ∀ (acc : gset string) c,
  c ∈ fold_left (fun all_fields r => all_fields ∪ dom r) results acc
  ↔ c ∈ acc ∨ ∃ r, r ∈ results ∧ is_Some (r !! c).
Proof.
  induction results as [|r0 results IH]; intros acc c; cbn [fold_left].
  - split; [by left|]. intros [H|(r & Hr & _)]; [exact H|].
    by apply elem_of_nil in Hr.
  - rewrite IH, elem_of_union, elem_of_dom. split.
    + intros [[H|H]|(r & Hr & Hc)]; [by left| |].
      * right. exists r0. split; [by apply elem_of_cons; left|exact H].
      * right. exists r. split; [by apply elem_of_cons; right|exact Hc].
    + intros [H|(r & Hr & Hc)]; [by left; left|].
      apply elem_of_cons in Hr as [->|Hr]; [by left; right|].
      right. by exists r.
Qed.

Lemma elem_of_all_fields results c :
  c ∈ all_fields results ↔ ∃ r, r ∈ results ∧ is_Some (r !! c).
Proof.
  unfold all_fields. rewrite fold_all_fields. split; [|by right].
  intros [H|H]; [by apply elem_of_empty in H|exact H].
Qed.

Lemma COLUMN_ORDER_NoDup : NoDup COLUMN_ORDER.
Proof. compute_done. Qed.

(** The sorted extras: a sorted arrangement, without repetition, of the
    fields that occur and are not in [COLUMN_ORDER]. *)
Lemma csv_extras results :
  let extras :=
    merge_sort str_le
      (elements (all_fields results
                   ∖ list_to_set (filter (.∈ all_fields results) COLUMN_ORDER))) in
  Sorted str_le extras ∧ NoDup extras
  ∧ ∀ c, c ∈ extras ↔ c ∈ all_fields results ∧ c ∉ COLUMN_ORDER.
Proof.
  intros extras. split; [apply (Sorted_merge_sort str_le)|].
  assert (extras ≡ₚ elements (all_fields results
            ∖ list_to_set (filter (.∈ all_fields results) COLUMN_ORDER)))
    as Hperm by apply (merge_sort_Permutation str_le).
  split.
  - rewrite Hperm. apply NoDup_elements.
  - intros c. rewrite Hperm, elem_of_elements, elem_of_difference,
      elem_of_list_to_set, list_elem_of_filter.
    split; intros [Hin Hnot]; (split; [exact Hin|]); intros H; apply Hnot;
      [by split|by destruct H].
Qed.

Lemma all_fields_Permutation results results' :
  results ≡ₚ results' → all_fields results = all_fields results'.
Proof.
  intros Hperm. apply set_eq. intros c. rewrite !elem_of_all_fields.
  split; intros (r & Hr & Hc); exists r; (split; [|exact Hc]).
  - by rewrite <- Hperm.
  - by rewrite Hperm.
Qed.

End CsvFacts.

(** The columns of the CSV are exactly the fields that occur in some
    row, each once: first those of [COLUMN_ORDER] in that order, then
    the others in increasing string order. *)
Theorem csv_columns_exact (results : list row) :
  NoDup (csv_columns results)
  ∧ (∀ c, c ∈ csv_columns results ↔ ∃ r, r ∈ results ∧ is_Some (r !! c))
  ∧ ∃ extras,
      csv_columns results
      = filter (.∈ all_fields results) COLUMN_ORDER ++ extras
      ∧ Sorted str_le extras
      ∧ Forall (.∉ COLUMN_ORDER) extras.
Proof.
  destruct (csv_extras results) as (Hsorted & Hnodup & Hextras).
  unfold csv_columns. cbv zeta in *. split; [|split].
  - apply NoDup_app. split; [|split; [|exact Hnodup]].
    + apply NoDup_filter, COLUMN_ORDER_NoDup.
    + intros c [_ Hc]%list_elem_of_filter [_ Hnot]%Hextras. by apply Hnot.
  - intros c. rewrite elem_of_app, list_elem_of_filter, Hextras,
      <- elem_of_all_fields.
    split; [intros [[H _]|[H _]]; exact H|]. intros H.
    destruct (decide (c ∈ COLUMN_ORDER)); [by left|by right].
  - eexists. split; [reflexivity|]. split; [exact Hsorted|].
    apply Forall_forall. intros c Hc. by apply Hextras in Hc as [_ Hnot].
Qed.

(** The columns do not depend on the order of the rows. *)
Theorem csv_columns_row_order (results results' : list row) :
  results ≡ₚ results' → csv_columns results = csv_columns results'.
Proof.
  intros Hperm. unfold csv_columns.
  by rewrite (all_fields_Permutation results results' Hperm).
Qed.

Lemma csv_columns_row_order_witness :
  [ravi_row; (<["age" := "34"]> ∅ : row)] ≡ₚ [<["age" := "34"]> ∅; ravi_row]
  ∧ csv_columns [ravi_row; (<["age" := "34"]> ∅ : row)]
    = csv_columns [<["age" := "34"]> ∅; ravi_row].
Proof.
  split; [apply Permutation_swap|].
  apply (csv_columns_row_order [ravi_row; (<["age" := "34"]> ∅ : row)]
           [<["age" := "34"]> ∅; ravi_row]).
  apply Permutation_swap.
Defined.

Example csv_columns_scenario :
  csv_columns [ravi_row; <["zone" := "S"]> (<["age" := "34"]> ∅)]
  = ["bib"; "full_name"; "chip_time"; "age"; "zone"].
Proof. compute_done. Qed.

Section CsvPipeline.

Variable py_str : json → string.



End CsvPipeline.




(** ** Platform detection *)

Example detect_platform_examples :
  detect_platform "www.MySamay.in" = Some "mysamay"
  ∧ detect_platform "my.raceresult.com" = Some "raceresult"
  ∧ detect_platform "results.example.org" = None.
Proof. compute_done. Qed.

Lemma find_first_match {A : Type} (f : A → bool) (l : list A) (x : A) :
  find f l = Some x →
  ∃ before after,
    l = before ++ x :: after ∧ f x = true
    ∧ Forall (fun y => f y = false) before.
Proof.
  induction l as [|y l IH]; cbn [find]; [discriminate|].
  destruct (f y) eqn:Hy.
  - intros [= ->]. exists [], l. repeat split; [exact Hy|constructor].
  - intros Hfind. destruct (IH Hfind) as (before & after & -> & Hx & Hall).
    exists (y :: before), after. repeat split; [exact Hx|by constructor].
Qed.

Lemma find_none_iff {A : Type} (f : A → bool) (l : list A) :
  find f l = None ↔ Forall (fun y => f y = false) l.
Proof.
  induction l as [|y l IH]; cbn [find]; [split; [constructor|reflexivity]|].
  destruct (f y) eqn:Hy.
  - split; [discriminate|]. intros [Hy' _]%Forall_cons. congruence.
  - rewrite IH. split; [by constructor|]. by intros [_ H]%Forall_cons.
Qed.

Lemma existsb_false_iff {A : Type} (f : A → bool) (l : list A) :
  existsb f l = false ↔ ∀ x, x ∈ l → f x = false.
Proof.
  induction l as [|y l IH]; cbn [existsb].
  - split; [|reflexivity]. intros _ x Hx. by apply elem_of_nil in Hx.
  - rewrite orb_false_iff, IH. split.
    + intros [Hy Hl] x [->|Hx]%elem_of_cons; auto.
    + intros Hall. split; [|intros x Hx]; apply Hall;
        [by apply elem_of_cons; left|by apply elem_of_cons; right].
Qed.

(** The platform detected is the first of the registry one of whose
    domains occurs in the lower-cased location with [www.] removed; none
    is detected exactly when no domain of the registry occurs there; and
    the letter case of the location does not matter. *)
Theorem detect_platform_first_match (netloc : string) :
  (∀ key, detect_platform netloc = Some key →
     ∃ before p after,
       PLATFORMS = before ++ (key, p) :: after
       ∧ (∃ d, d ∈ domains p
               ∧ contains (remove_www (lower netloc)) d = true)
       ∧ ∀ key' p' d', (key', p') ∈ before → d' ∈ domains p' →
           contains (remove_www (lower netloc)) d' = false)
  ∧ (detect_platform netloc = None
     ↔ ∀ key p d, (key, p) ∈ PLATFORMS → d ∈ domains p →
         contains (remove_www (lower netloc)) d = false)
  ∧ detect_platform (lower netloc) = detect_platform netloc.
Proof.
  unfold detect_platform. rewrite lower_idemp. cbv zeta.
  generalize (remove_www (lower netloc)). intros domain.
  split; [|split; [|reflexivity]].
  - intros key Hkey.
    destruct (find _ PLATFORMS) as [[k p]|] eqn:Hfind; [|discriminate].
    injection Hkey as ->.
    apply find_first_match in Hfind as (before & after & Hsplit & Hp & Hbefore).
    exists before, p, after. split; [exact Hsplit|]. cbn [snd] in Hp. split.
    + apply existsb_exists in Hp as (d & Hd & Hc).
      exists d. split; [by apply list_elem_of_In|exact Hc].
    + intros key' p' d' Hin Hd'. rewrite Forall_forall in Hbefore.
      specialize (Hbefore _ Hin). cbn [snd] in Hbefore.
      by apply (proj1 (existsb_false_iff _ _) Hbefore).
  - rewrite fmap_None, find_none_iff, Forall_forall. split.
    + intros Hall key p d Hin Hd. specialize (Hall _ Hin). cbn [snd] in Hall.
      by apply (proj1 (existsb_false_iff _ _) Hall).
    + intros Hall [key p] Hin. cbn [snd]. apply existsb_false_iff.
      intros d Hd. by apply (Hall key p d).
Qed.

Lemma detect_platform_first_match_witness :
  detect_platform "www.RaceResult.com" = Some "raceresult"
  ∧ ∃ before p after,
      PLATFORMS = before ++ ("raceresult", p) :: after
      ∧ (∃ d, d ∈ domains p
              ∧ contains (remove_www (lower "www.RaceResult.com")) d = true)
      ∧ ∀ key' p' d', (key', p') ∈ before → d' ∈ domains p' →
          contains (remove_www (lower "www.RaceResult.com")) d' = false.
Proof.
  split; [compute_done|].
  apply (proj1 (detect_platform_first_match "www.RaceResult.com")).
  compute_done.
Defined.

(** ** Output file name *)

Lemma sanitize_char_fixed (c : ascii) :
  let c' := if is_word_char c || Ascii.eqb c "-"%char then c else "_"%char in
  is_word_char c' || Ascii.eqb c' "-"%char = true.
Proof. destruct c as [[] [] [] [] [] [] [] []]; reflexivity. Qed.

Lemma sanitized_length (s : string) :
  String.length (sanitized s) = String.length s.
Proof. induction s as [|c s IH]; cbn; [reflexivity|by rewrite IH]. Qed.

Lemma sanitized_chars (s : string) :
  Forall (fun c => is_word_char c || Ascii.eqb c "-"%char = true)
         (list_ascii_of_string (sanitized s)).
Proof.
  induction s as [|c s IH]; cbn [sanitized list_ascii_of_string];
    constructor; [apply sanitize_char_fixed|exact IH].
Qed.

Lemma sanitized_idemp (s : string) : sanitized (sanitized s) = sanitized s.
Proof.
  induction s as [|c s IH]; cbn [sanitized]; [reflexivity|].
  rewrite IH. f_equal.
  pose proof (sanitize_char_fixed c) as Hc. cbv zeta in Hc. by rewrite Hc.
Qed.

(** The name used for the output file is never empty and consists of
    word characters and hyphens only, so it holds no path separator, dot
    or blank; it has the length of the race name it comes from, and
    sanitising it again changes nothing. *)
Theorem safe_name_characters (race_name : option string) :
  safe_name race_name ≠ ""
  ∧ Forall (fun c => is_word_char c || Ascii.eqb c "-"%char = true)
           (list_ascii_of_string (safe_name race_name))
  ∧ Forall (fun c => c ∉ ["/"; "092"; "."; " "; ":"]%char)
           (list_ascii_of_string (safe_name race_name))
  ∧ (∀ s, race_name = Some s → s ≠ "" →
       String.length (safe_name race_name) = String.length s)
  ∧ safe_name (Some (safe_name race_name)) = safe_name race_name.
Proof.
  assert (∀ s, s ≠ "" → sanitized s ≠ "") as Hne
    by (intros [|c s] H; [done|discriminate]).
  assert (safe_name race_name ≠ "") as Hnonempty.
  { unfold safe_name. apply Hne. destruct race_name as [[|c s]|]; discriminate. }
  split; [exact Hnonempty|]. split; [apply sanitized_chars|]. split; [|split].
  - eapply Forall_impl; [apply sanitized_chars|]. intros c Hc Hin.
    apply list_elem_of_In in Hin. cbn [In] in Hin.
    destruct Hin as [<-|[<-|[<-|[<-|[<-|[]]]]]]; discriminate.
  - intros s -> Hs. unfold safe_name.
    destruct s; [done|]. apply sanitized_length.
  - unfold safe_name at 1.
    destruct (safe_name race_name) eqn:Hname; [done|].
    cbn [truthy]. rewrite <- Hname. unfold safe_name. apply sanitized_idemp.
Qed.

Lemma safe_name_characters_witness :
  Some "TCS World 10K/2025" = Some "TCS World 10K/2025"
  ∧ "TCS World 10K/2025" ≠ ""
  ∧ String.length (safe_name (Some "TCS World 10K/2025"))
    = String.length "TCS World 10K/2025".
Proof.
  split; [reflexivity|]. split; [discriminate|].
  apply (safe_name_characters (Some "TCS World 10K/2025"));
    [reflexivity|discriminate].
Defined.
